(** * comfyllama: the chat-history engine of [LlamaLiteNode]

    A shallow embedding of [comfy_llama_node.py]: the validation of an
    externally supplied chat history ([_parse_chat_history]), the merge of a
    completion response into it ([_format_chat_history_output]) and the
    caller-facing entry point ([execute_llama_chat]).

    Python values are modelled as follows.
    - [str] is a list of code points ([N]), so that [str.strip] and the
      escaping rules of the [json] module can be stated on characters.
    - The values [json.loads] can build are the inductive type [value];
      a [dict] is an association list in insertion order.
    - A Python [float] is carried by the text it was read from; its printed
      form is left to the interpreter (see [runtime]).
    - Exceptions are values of [exn]; fallible code returns a sum.
    - The list object handed to [_format_chat_history_output] lives in a
      store of list objects, so that aliasing and mutation are visible.
    - The cache of clients of the node is passed in and out of
      [execute_llama_chat]; the client and the image decoder are
      collaborators, taken as variables. *)

From Stdlib Require Import List ZArith NArith Ascii String Bool Lia.
From Stdlib Require Import DecimalFacts DecimalPos DecimalN DecimalZ.
From stdpp Require Import gmap.
Import ListNotations.

Local Open Scope N_scope.
Local Open Scope list_scope.

(** ** Python strings *)

Abbreviation char := N (only parsing).
Abbreviation pystr := (list N) (only parsing).

(** [u "abc"] is the Python string with the code points of the literal. *)
Definition u (s : string) : pystr := List.map N_of_ascii (list_ascii_of_string s).

(** [js "{'a': 1}"] is the Python string [{"a": 1}]: the literal with every
    apostrophe (39) replaced by a double quote (34). *)
Definition js (s : string) : pystr :=
  List.map (fun c : char => if c =? 39 then 34 else c) (u s).

(** [str.isspace] on one character, as CPython's [_PyUnicode_IsWhitespace]. *)
Definition isspace (c : char) : bool :=
  ((0x09 <=? c) && (c <=? 0x0D)) || ((0x1C <=? c) && (c <=? 0x20))
  || (c =? 0x85) || (c =? 0xA0) || (c =? 0x1680)
  || ((0x2000 <=? c) && (c <=? 0x200A))
  || (c =? 0x2028) || (c =? 0x2029) || (c =? 0x202F) || (c =? 0x205F)
  || (c =? 0x3000).

Fixpoint lstrip (s : pystr) : pystr :=
  match s with
  | c :: s' => if isspace c then lstrip s' else s
  | [] => []
  end.

Definition rstrip (s : pystr) : pystr := rev (lstrip (rev s)).

(** [s.strip()] *)
Definition strip (s : pystr) : pystr := rstrip (lstrip s).

(** Truth value of a string: [not s] holds for the empty string only. *)
Definition truthy (s : pystr) : bool :=
  match s with [] => false | _ :: _ => true end.

Definition pystr_eqb (a b : pystr) : bool := bool_decide (a = b).

(** ** Python values built by [json.loads] *)

(** A float is kept as the lexeme [integer + frac + exp] given to [float()],
    or as one of the three constants the decoder accepts. *)
Inductive pyfloat :=
| FloatLit (integer frac exp : pystr)
| FloatNaN
| FloatInf
| FloatNegInf.

Unset Elimination Schemes.
Inductive value :=
| VNone
| VBool (b : bool)
| VInt (n : Z)
| VFloat (f : pyfloat)
| VStr (s : pystr)
| VList (l : list value)
| VDict (d : list (pystr * value)).
Set Elimination Schemes.

(** What the interpreter decides and this development does not: the printed
    form of a float, the iteration order of the set [valid_roles] when it is
    printed, and the text of a [JSONDecodeError]. *)
Record runtime := {
  float_repr : pystr -> pystr -> pystr -> pystr;
  valid_roles_repr : pystr;
  decode_error_text : pystr -> pystr
}.

(** [float.__repr__] *)
Definition repr_float (rt : runtime) (f : pyfloat) : pystr :=
  match f with
  | FloatLit i fr e => float_repr rt i fr e
  | FloatNaN => u "nan"
  | FloatInf => u "inf"
  | FloatNegInf => u "-inf"
  end.

(** ** [json.dumps] *)

Fixpoint uint_chars (d : Decimal.uint) : pystr :=
  match d with
  | Decimal.Nil => []
  | Decimal.D0 d => 48 :: uint_chars d
  | Decimal.D1 d => 49 :: uint_chars d
  | Decimal.D2 d => 50 :: uint_chars d
  | Decimal.D3 d => 51 :: uint_chars d
  | Decimal.D4 d => 52 :: uint_chars d
  | Decimal.D5 d => 53 :: uint_chars d
  | Decimal.D6 d => 54 :: uint_chars d
  | Decimal.D7 d => 55 :: uint_chars d
  | Decimal.D8 d => 56 :: uint_chars d
  | Decimal.D9 d => 57 :: uint_chars d
  end.

(** [int.__repr__] *)
Definition int_repr (n : Z) : pystr :=
  match Z.to_int n with
  | Decimal.Pos d => uint_chars d
  | Decimal.Neg d => 45 :: uint_chars d
  end.

Definition hexdigit (n : N) : char := if n <? 10 then 48 + n else 87 + n.

(** ['{0:04x}'.format(n)] for [n < 0x10000] *)
Definition hex4 (n : N) : pystr :=
  [hexdigit (n / 4096 mod 16); hexdigit (n / 256 mod 16);
   hexdigit (n / 16 mod 16); hexdigit (n mod 16)].

(** [ESCAPE_DCT]: the short escapes, then [\u00XX] for the other controls. *)
Definition escape_dct (c : char) : option pystr :=
  if c =? 92 then Some [92; 92]
  else if c =? 34 then Some [92; 34]
  else if c =? 8 then Some [92; 98]
  else if c =? 12 then Some [92; 102]
  else if c =? 10 then Some [92; 110]
  else if c =? 13 then Some [92; 114]
  else if c =? 9 then Some [92; 116]
  else if c <? 32 then Some (92 :: 117 :: hex4 c)
  else None.

(** One character of [py_encode_basestring] ([ensure_ascii=False]) or of
    [py_encode_basestring_ascii] ([ensure_ascii=True]). *)
Definition escape_char (ensure_ascii : bool) (c : char) : pystr :=
  match escape_dct c with
  | Some e => e
  | None =>
    if ensure_ascii && negb ((32 <=? c) && (c <=? 126)) then
      if c <? 0x10000 then 92 :: 117 :: hex4 c
      else
        let n := c - 0x10000 in
        let s1 := N.lor 0xd800 (N.land (N.shiftr n 10) 0x3ff) in
        let s2 := N.lor 0xdc00 (N.land n 0x3ff) in
        (92 :: 117 :: hex4 s1) ++ (92 :: 117 :: hex4 s2)
    else [c]
  end.

Definition encode_basestring (ensure_ascii : bool) (s : pystr) : pystr :=
  34 :: flat_map (escape_char ensure_ascii) s ++ [34].

(** [floatstr] of the encoder, with the default [allow_nan=True]. *)
Definition floatstr (rt : runtime) (f : pyfloat) : pystr :=
  let r := repr_float rt f in
  if pystr_eqb r (u "nan") then u "NaN"
  else if pystr_eqb r (u "inf") then u "Infinity"
  else if pystr_eqb r (u "-inf") then u "-Infinity"
  else r.

(** [_newline_indent] for [indent=2]. *)
Definition newline_indent (level : nat) : pystr :=
  10 :: repeat 32 (2 * level)%nat.

Fixpoint join (sep : pystr) (parts : list pystr) : pystr :=
  match parts with
  | [] => []
  | [p] => p
  | p :: ps => p ++ sep ++ join sep ps
  end.

(** [_iterencode] with [indent=2] and the separators [(',', ': ')] that
    come with it; [level] is [_current_indent_level]. *)
Fixpoint iterencode (rt : runtime) (ensure_ascii : bool) (level : nat)
    (v : value) : pystr :=
  match v with
  | VNone => u "null"
  | VBool true => u "true"
  | VBool false => u "false"
  | VInt n => int_repr n
  | VFloat f => floatstr rt f
  | VStr s => encode_basestring ensure_ascii s
  | VList [] => u "[]"
  | VList l =>
    91 :: newline_indent (S level)
      ++ join (44 :: newline_indent (S level))
           (List.map (iterencode rt ensure_ascii (S level)) l)
      ++ newline_indent level ++ [93]
  | VDict [] => u "{}"
  | VDict d =>
    123 :: newline_indent (S level)
      ++ join (44 :: newline_indent (S level))
           (List.map (fun kv : pystr * value =>
                   encode_basestring ensure_ascii (fst kv) ++ [58; 32]
                     ++ iterencode rt ensure_ascii (S level) (snd kv)) d)
      ++ newline_indent level ++ [125]
  end.

(** [json.dumps(obj, indent=2, ensure_ascii=...)] *)
Definition dumps (rt : runtime) (ensure_ascii : bool) (obj : value) : pystr :=
  iterencode rt ensure_ascii 0 obj.


(** ** [json.loads]

    The decoder follows [json.decoder] and [json.scanner]: the input is
    consumed from the left and every function returns the value read and
    the rest of the input, or [None] where CPython raises
    [JSONDecodeError]. Unbounded integers and nesting are assumed (the
    digit limit of [int()] and the recursion limit are not modelled). *)

(** [WHITESPACE]: any run of space, tab, line feed and carriage return. *)
Definition is_ws (c : char) : bool :=
  (c =? 32) || (c =? 9) || (c =? 10) || (c =? 13).

Fixpoint skip_ws (s : pystr) : pystr :=
  match s with
  | c :: s' => if is_ws c then skip_ws s' else s
  | [] => []
  end.

Definition hexval (c : char) : option N :=
  if (48 <=? c) && (c <=? 57) then Some (c - 48)
  else if (97 <=? c) && (c <=? 102) then Some (c - 87)
  else if (65 <=? c) && (c <=? 70) then Some (c - 55)
  else None.

(** [_decode_uXXXX]: four hexadecimal digits. *)
Definition decode_uXXXX (a b c d : char) : option N :=
  match hexval a, hexval b, hexval c, hexval d with
  | Some x, Some y, Some z, Some w => Some (((x * 16 + y) * 16 + z) * 16 + w)
  | _, _, _, _ => None
  end.

(** The table [BACKSLASH]. *)
Definition backslash (esc : char) : option char :=
  if esc =? 34 then Some 34
  else if esc =? 92 then Some 92
  else if esc =? 47 then Some 47
  else if esc =? 98 then Some 8
  else if esc =? 102 then Some 12
  else if esc =? 110 then Some 10
  else if esc =? 114 then Some 13
  else if esc =? 116 then Some 9
  else None.

Definition push (c : char) (r : option (pystr * pystr)) : option (pystr * pystr) :=
  match r with
  | Some (s, rest) => Some (c :: s, rest)
  | None => None
  end.

(** [scanstring(s, end, strict=True)], entered after the opening quote. *)
Fixpoint scanstring (s : pystr) : option (pystr * pystr) :=
  match s with
  | [] => None
  | c :: s1 =>
    if c =? 34 then Some ([], s1)
    else if c =? 92 then
      match s1 with
      | [] => None
      | esc :: s2 =>
        if esc =? 117 then
          match s2 with
          | h1 :: h2 :: h3 :: h4 :: s3 =>
            match decode_uXXXX h1 h2 h3 h4 with
            | None => None
            | Some uni =>
              if (0xd800 <=? uni) && (uni <=? 0xdbff) then
                match s3 with
                | b :: s3a =>
                  match s3a with
                  | e2 :: s3b =>
                    if (b =? 92) && (e2 =? 117) then
                      match s3b with
                      | l1 :: l2 :: l3 :: l4 :: s4 =>
                        match decode_uXXXX l1 l2 l3 l4 with
                        | None => None
                        | Some uni2 =>
                          if (0xdc00 <=? uni2) && (uni2 <=? 0xdfff) then
                            push (0x10000 +
                                  N.lor (N.shiftl (uni - 0xd800) 10) (uni2 - 0xdc00))
                              (scanstring s4)
                          else push uni (scanstring s3)
                        end
                      | _ => None
                      end
                    else push uni (scanstring s3)
                  | [] => push uni (scanstring s3)
                  end
                | [] => push uni (scanstring s3)
                end
              else push uni (scanstring s3)
            end
          | _ => None
          end
        else
          match backslash esc with
          | Some ch => push ch (scanstring s2)
          | None => None
          end
      end
    else if c <? 32 then None
    else push c (scanstring s1)
  end.

Definition isdigit (c : char) : bool := (48 <=? c) && (c <=? 57).

Definition digit_cons (c : char) (d : Decimal.uint) : Decimal.uint :=
  if c =? 48 then Decimal.D0 d else if c =? 49 then Decimal.D1 d
  else if c =? 50 then Decimal.D2 d else if c =? 51 then Decimal.D3 d
  else if c =? 52 then Decimal.D4 d else if c =? 53 then Decimal.D5 d
  else if c =? 54 then Decimal.D6 d else if c =? 55 then Decimal.D7 d
  else if c =? 56 then Decimal.D8 d else Decimal.D9 d.

(** The longest run of decimal digits at the head of [s]. *)
Fixpoint span_digits (s : pystr) : pystr * pystr :=
  match s with
  | c :: s' =>
    if isdigit c then let (ds, rest) := span_digits s' in (c :: ds, rest)
    else ([], s)
  | [] => ([], [])
  end.

Definition uint_of_chars (ds : pystr) : Decimal.uint :=
  fold_right digit_cons Decimal.Nil ds.

(** [int(integer)] on a lexeme of the integer part of [NUMBER_RE]. *)
Definition int_of_lexeme (lex : pystr) : Z :=
  match lex with
  | c :: ds =>
    if c =? 45 then Z.of_int (Decimal.Neg (uint_of_chars ds))
    else Z.of_int (Decimal.Pos (uint_of_chars lex))
  | [] => 0%Z
  end.

(** The integer part of [NUMBER_RE]: an optional minus sign, then either a
    single zero or a digit from 1 to 9 followed by any digits. *)
Definition match_integer (s : pystr) : option (pystr * pystr) :=
  let (sign, s0) :=
    match s with
    | c :: s' => if c =? 45 then ([45], s') else ([], s)
    | [] => ([], s)
    end in
  match s0 with
  | c :: s1 =>
    if c =? 48 then Some (sign ++ [48], s1)
    else if isdigit c then
      let (ds, rest) := span_digits s1 in Some (sign ++ c :: ds, rest)
    else None
  | [] => None
  end.

(** The optional fraction of [NUMBER_RE]: a dot and at least one digit. *)
Definition match_frac (s : pystr) : pystr * pystr :=
  match s with
  | c :: s1 =>
    if c =? 46 then
      match span_digits s1 with
      | ([], _) => ([], s)
      | (ds, rest) => (46 :: ds, rest)
      end
    else ([], s)
  | [] => ([], s)
  end.

(** The optional exponent of [NUMBER_RE]: [e] or [E], an optional sign and
    at least one digit. *)
Definition match_exp (s : pystr) : pystr * pystr :=
  match s with
  | c :: s1 =>
    if (c =? 101) || (c =? 69) then
      let (sign, s2) :=
        match s1 with
        | g :: s' => if (g =? 45) || (g =? 43) then ([g], s') else ([], s1)
        | [] => ([], s1)
        end in
      match span_digits s2 with
      | ([], _) => ([], s)
      | (ds, rest) => (c :: sign ++ ds, rest)
      end
    else ([], s)
  | [] => ([], s)
  end.

(** [NUMBER_RE.match] followed by [parse_int] or [parse_float]. *)
Definition match_number (s : pystr) : option (value * pystr) :=
  match match_integer s with
  | None => None
  | Some (integer, s1) =>
    let (frac, s2) := match_frac s1 in
    let (exp, s3) := match_exp s2 in
    match frac, exp with
    | [], [] => Some (VInt (int_of_lexeme integer), s3)
    | _, _ => Some (VFloat (FloatLit integer frac exp), s3)
    end
  end.

Fixpoint strip_prefix (p s : pystr) : option pystr :=
  match p, s with
  | [], _ => Some s
  | a :: p', b :: s' => if a =? b then strip_prefix p' s' else None
  | _ :: _, [] => None
  end.

(** [d[key] = v] on a dict in insertion order. *)
Fixpoint dict_set (d : list (pystr * value)) (k : pystr) (v : value)
    : list (pystr * value) :=
  match d with
  | [] => [(k, v)]
  | (k', v') :: d' =>
    if pystr_eqb k' k then (k', v) :: d' else (k', v') :: dict_set d' k v
  end.

(** [dict(pairs)] *)
Definition dict_of_pairs (pairs : list (pystr * value)) : list (pystr * value) :=
  fold_left (fun d kv => dict_set d (fst kv) (snd kv)) pairs [].

Section Decoder.
(** [scan_once], the parser of one value, as handed to [JSONArray] and
    [JSONObject]. *)
Variable scan_once : pystr -> option (value * pystr).

(** The loop of [JSONArray]; [n] bounds the number of elements. *)
Fixpoint array_loop (n : nat) (s : pystr) : option (list value * pystr) :=
  match n with
  | O => None
  | S n' =>
    match scan_once s with
    | None => None
    | Some (v, s1) =>
      match skip_ws s1 with
      | c :: s2 =>
        if c =? 93 then Some ([v], s2)
        else if c =? 44 then
          match array_loop n' (skip_ws s2) with
          | Some (vs, rest) => Some (v :: vs, rest)
          | None => None
          end
        else None
      | [] => None
      end
    end
  end.

(** [JSONArray], entered after the opening bracket. *)
Definition JSONArray (n : nat) (s : pystr) : option (value * pystr) :=
  match skip_ws s with
  | c :: s1 =>
    if c =? 93 then Some (VList [], s1)
    else
      match array_loop n (skip_ws s) with
      | Some (vs, rest) => Some (VList vs, rest)
      | None => None
      end
  | [] => None
  end.

(** The loop of [JSONObject], entered after the opening quote of a key;
    [n] bounds the number of pairs. *)
Fixpoint object_loop (n : nat) (s : pystr)
    : option (list (pystr * value) * pystr) :=
  match n with
  | O => None
  | S n' =>
    match scanstring s with
    | None => None
    | Some (key, s1) =>
      match skip_ws s1 with
      | c :: s2 =>
        if c =? 58 then
          match scan_once (skip_ws s2) with
          | None => None
          | Some (v, s3) =>
            match skip_ws s3 with
            | c' :: s4 =>
              if c' =? 125 then Some ([(key, v)], s4)
              else if c' =? 44 then
                match skip_ws s4 with
                | q :: s5 =>
                  if q =? 34 then
                    match object_loop n' s5 with
                    | Some (kvs, rest) => Some ((key, v) :: kvs, rest)
                    | None => None
                    end
                  else None
                | [] => None
                end
              else None
            | [] => None
            end
          end
        else None
      | [] => None
      end
    end
  end.

(** [JSONObject], entered after the opening brace. *)
Definition JSONObject (n : nat) (s : pystr) : option (value * pystr) :=
  match skip_ws s with
  | c :: s1 =>
    if c =? 125 then Some (VDict [], s1)
    else if c =? 34 then
      match object_loop n s1 with
      | Some (pairs, rest) => Some (VDict (dict_of_pairs pairs), rest)
      | None => None
      end
    else None
  | [] => None
  end.
End Decoder.

(** [_scan_once] of [py_make_scanner]; [fuel] bounds the nesting depth and,
    through the loops, the number of elements of each container. It is
    never exhausted when it exceeds the length of the input. *)
Fixpoint scan_once (fuel : nat) (s : pystr) : option (value * pystr) :=
  match fuel with
  | O => None
  | S fuel' =>
    match s with
    | [] => None
    | c :: s1 =>
      if c =? 34 then
        match scanstring s1 with
        | Some (str, rest) => Some (VStr str, rest)
        | None => None
        end
      else if c =? 123 then JSONObject (scan_once fuel') fuel' s1
      else if c =? 91 then JSONArray (scan_once fuel') fuel' s1
      else
        match strip_prefix (u "null") s, strip_prefix (u "true") s,
              strip_prefix (u "false") s with
        | Some rest, _, _ => Some (VNone, rest)
        | _, Some rest, _ => Some (VBool true, rest)
        | _, _, Some rest => Some (VBool false, rest)
        | None, None, None =>
          match match_number s with
          | Some r => Some r
          | None =>
            match strip_prefix (u "NaN") s, strip_prefix (u "Infinity") s,
                  strip_prefix (u "-Infinity") s with
            | Some rest, _, _ => Some (VFloat FloatNaN, rest)
            | _, Some rest, _ => Some (VFloat FloatInf, rest)
            | _, _, Some rest => Some (VFloat FloatNegInf, rest)
            | None, None, None => None
            end
          end
        end
    end
  end.

(** [s.startswith('\ufeff')] *)
Definition startswith_bom (s : pystr) : bool :=
  match s with
  | c :: _ => c =? 0xfeff
  | [] => false
  end.

(** [json.loads(s)] for a [str]: reject a leading BOM, skip white space,
    read one value, skip white space, and require the end of the input. *)
Definition loads (s : pystr) : option value :=
  if startswith_bom s then None
  else
    match scan_once (S (length s)) (skip_ws s) with
    | Some (obj, rest) =>
      match skip_ws rest with
      | [] => Some obj
      | _ :: _ => None
      end
    | None => None
    end.

(** ** Exceptions *)

Inductive exn :=
| JSONDecodeError (doc : pystr)
| ValueError (msg : pystr)
| TypeError (msg : pystr)
| KeyError (key : pystr)
| OtherException (msg : pystr).

(** [str(e)]. The text of a [JSONDecodeError] is the interpreter's; an
    [OtherException] stands for an exception of a collaborator and carries
    its text. *)
Definition str_exn (rt : runtime) (e : exn) : pystr :=
  match e with
  | JSONDecodeError doc => decode_error_text rt doc
  | ValueError msg => msg
  | TypeError msg => msg
  | KeyError key => 39 :: key ++ [39]
  | OtherException msg => msg
  end.

Definition bind {A B : Type} (m : exn + A) (k : A -> exn + B) : exn + B :=
  match m with
  | inl e => inl e
  | inr a => k a
  end.

Notation "'let*' x ':=' m 'in' k" := (bind m (fun x => k))
  (at level 10, x name, m at level 100, k at level 200, only parsing).

(** ** [_parse_chat_history] *)

(** [key in d] and [d[key]] *)
Fixpoint dict_get (d : list (pystr * value)) (key : pystr) : option value :=
  match d with
  | [] => None
  | (k, v) :: d' => if pystr_eqb k key then Some v else dict_get d' key
  end.

Definition dict_has (d : list (pystr * value)) (key : pystr) : bool :=
  match dict_get d key with Some _ => true | None => false end.

Definition getitem (d : list (pystr * value)) (key : pystr) : exn + value :=
  match dict_get d key with
  | Some v => inr v
  | None => inl (KeyError key)
  end.

(** The values of [value] that can be hashed. *)
Inductive hashable :=
| HNone
| HBool (b : bool)
| HInt (n : Z)
| HFloat (f : pyfloat)
| HStr (s : pystr).

(** [hash(v)]: lists and dicts raise [TypeError]. *)
Definition hash_value (v : value) : exn + hashable :=
  match v with
  | VNone => inr HNone
  | VBool b => inr (HBool b)
  | VInt n => inr (HInt n)
  | VFloat f => inr (HFloat f)
  | VStr s => inr (HStr s)
  | VList _ => inl (TypeError (u "unhashable type: 'list'"))
  | VDict _ => inl (TypeError (u "unhashable type: 'dict'"))
  end.

(** [str(v)] of a hashable value, as an f-string formats it. *)
Definition str_hashable (rt : runtime) (h : hashable) : pystr :=
  match h with
  | HNone => u "None"
  | HBool true => u "True"
  | HBool false => u "False"
  | HInt n => int_repr n
  | HFloat f => repr_float rt f
  | HStr s => s
  end.

(** [valid_roles = {"system", "user", "assistant"}] *)
Definition valid_roles : list pystr := [u "system"; u "user"; u "assistant"].

(** [role in valid_roles]: the role is hashed, then compared with the
    members; only a [str] can be equal to one of them. *)
Definition in_valid_roles (role : value) : exn + bool :=
  let* h := hash_value role in
  inr match h with
      | HStr s => existsb (pystr_eqb s) valid_roles
      | _ => false
      end.

Definition nat_repr (i : nat) : pystr := int_repr (Z.of_nat i).

Definition msg_not_dict (i : nat) : pystr :=
  u "Message " ++ nat_repr i ++ u " must be a dictionary".

Definition msg_missing_fields (i : nat) : pystr :=
  u "Message " ++ nat_repr i ++ u " must have 'role' and 'content' fields".

Definition msg_invalid_role (rt : runtime) (i : nat) (role : hashable) : pystr :=
  u "Message " ++ nat_repr i ++ u " has invalid role: " ++ str_hashable rt role
    ++ u ". Must be one of " ++ valid_roles_repr rt.

(** The body of the loop [for i, message in enumerate(chat_history)]. *)
Definition check_message (rt : runtime) (i : nat) (message : value) : exn + unit :=
  match message with
  | VDict d =>
    if negb (dict_has d (u "role")) || negb (dict_has d (u "content")) then
      inl (ValueError (msg_missing_fields i))
    else
      let* role := getitem d (u "role") in
      let* known := in_valid_roles role in
      if negb known then
        let* h := hash_value role in
        inl (ValueError (msg_invalid_role rt i h))
      else inr tt
  | _ => inl (ValueError (msg_not_dict i))
  end.

Fixpoint check_messages (rt : runtime) (i : nat) (l : list value) : exn + unit :=
  match l with
  | [] => inr tt
  | message :: rest =>
    let* _ := check_message rt i message in check_messages rt (S i) rest
  end.

(** The [try] block of [_parse_chat_history]. *)
Definition parse_body (rt : runtime) (chat_history_str : pystr)
    : exn + list value :=
  match loads chat_history_str with
  | None => inl (JSONDecodeError chat_history_str)
  | Some (VList chat_history) =>
    let* _ := check_messages rt 0 chat_history in inr chat_history
  | Some _ => inl (ValueError (u "Chat history must be a JSON array"))
  end.

(** [_parse_chat_history]: the two handlers turn every exception of the
    body into a [ValueError]. *)
Definition _parse_chat_history (rt : runtime) (chat_history_str : pystr)
    : exn + list value :=
  if negb (truthy chat_history_str) || pystr_eqb (strip chat_history_str) []
  then inr []
  else
    match parse_body rt chat_history_str with
    | inr chat_history => inr chat_history
    | inl (JSONDecodeError doc) =>
      inl (ValueError (u "Invalid JSON in chat_history: "
                         ++ str_exn rt (JSONDecodeError doc)))
    | inl e =>
      inl (ValueError (u "Error parsing chat_history: " ++ str_exn rt e))
    end.

(** ** The completion response

    The response of the transport is inspected with [hasattr]; an absent
    attribute is [None] here. *)

Record Message := { content : option value }.
Record Choice := { message : option Message }.
Record Response := { choices : option (list Choice) }.

(** ** [_format_chat_history_output] *)

(** The store of list objects; a list is named by its location. *)
Definition loc := nat.
Abbreviation heap := (gmap loc (list value)).

Definition read (h : heap) (l : loc) : list value := default [] (h !! l).

(** [l.copy()]: a new list object with the same elements. *)
Definition list_copy (h : heap) (l : loc) : loc * heap :=
  let l' := fresh (dom h) in (l', <[l' := read h l]> h).

(** [l.append(x)]: the list object at [l] is updated in place. *)
Definition list_append (h : heap) (l : loc) (x : value) : heap :=
  <[l := read h l ++ [x]]> h.

Definition assistant_message (c : value) : value :=
  VDict [(u "role", VStr (u "assistant")); (u "content", c)].

(** The [try] block; [None] when [choice.message.content] raises
    [AttributeError]. *)
Definition format_body (rt : runtime) (response_data : Response)
    (input_chat_history : loc) (h : heap) : option pystr * heap :=
  let (complete_history, h1) := list_copy h input_chat_history in
  let appended :=
    match choices response_data with
    | Some (choice :: _) =>
      match message choice with
      | Some m =>
        match content m with
        | Some c => Some (list_append h1 complete_history (assistant_message c))
        | None => None
        end
      | None => Some h1
      end
    | _ => Some h1
    end in
  match appended with
  | Some h2 => (Some (dumps rt false (VList (read h2 complete_history))), h2)
  | None => (None, h1)
  end.

Definition _format_chat_history_output (rt : runtime) (response_data : Response)
    (input_chat_history : loc) (h : heap) : pystr * heap :=
  match format_body rt response_data input_chat_history h with
  | (Some s, h') => (s, h')
  | (None, h') => (dumps rt false (VList (read h' input_chat_history)), h')
  end.

(** ** [execute_llama_chat] *)

(** [len(v)] *)
Definition len (v : value) : exn + nat :=
  match v with
  | VStr s => inr (length s)
  | VList l => inr (length l)
  | VDict d => inr (length d)
  | VNone => inl (TypeError (u "object of type 'NoneType' has no len()"))
  | VBool _ => inl (TypeError (u "object of type 'bool' has no len()"))
  | VInt _ => inl (TypeError (u "object of type 'int' has no len()"))
  | VFloat _ => inl (TypeError (u "object of type 'float' has no len()"))
  end.

(** The [except] handler of [execute_llama_chat]; the error history is
    written with the default [ensure_ascii=True]. *)
Definition error_result (rt : runtime) (e : exn) : value * pystr :=
  (VStr (u "Error: " ++ str_exn rt e),
   dumps rt true
     (VList [VDict [(u "role", VStr (u "system"));
                    (u "content", VStr (u "Error occurred: " ++ str_exn rt e))]])).

Section Node.
(** The collaborators: image tensors and their decoding, the constructor
    of [LlamaLiteClient] and its method [chat]; each of them may raise. The
    transport is assumed not to mutate the history it is given. *)
Variables tensor image client : Type.
Variable open_comfy_image : tensor -> exn + image.
Variable LlamaLiteClient : pystr -> exn + client.

Record chat_params := {
  cp_prompt : pystr;
  cp_chat_history : list value;
  cp_system_prompt : option pystr;
  cp_images : option (list image)
}.

Variable chat : client -> chat_params -> exn + Response.
Variable rt : runtime.

(** [self._client_cache] *)
Abbreviation cache := (gmap (list N) client).

(** [_get_client]: a client is created for a URL that is not in the cache
    and is kept there. *)
Definition _get_client (clients : cache) (server_url : pystr)
    : (exn + client) * cache :=
  match clients !! server_url with
  | Some c => (inr c, clients)
  | None =>
    match LlamaLiteClient server_url with
    | inr c => (inr c, <[server_url := c]> clients)
    | inl e => (inl e, clients)
    end
  end.

Fixpoint process_images (slots : list (option tensor)) : exn + list image :=
  match slots with
  | [] => inr []
  | None :: rest => process_images rest
  | Some image_tensor :: rest =>
    let* pil_image := open_comfy_image image_tensor in
    let* others := process_images rest in
    inr (pil_image :: others)
  end.

Definition nonblank (s : option pystr) : bool :=
  match s with
  | Some s => truthy s && truthy (strip s)
  | None => false
  end.

(** The history handed to the transport: the parsed [chat_history] when
    it is given and not blank, the empty list otherwise. *)
Definition parse_history (chat_history : option pystr) : exn + list value :=
  if nonblank chat_history
  then _parse_chat_history rt (strip (default [] chat_history))
  else inr [].

(** [chat_params] *)
Definition request (prompt : pystr) (system_prompt : option pystr)
    (processed_images : list image) (parsed_chat_history : list value)
    : chat_params :=
  {| cp_prompt := strip prompt;
     cp_chat_history := parsed_chat_history;
     cp_system_prompt :=
       if nonblank system_prompt
       then Some (strip (default [] system_prompt)) else None;
     cp_images :=
       match processed_images with
       | [] => None
       | _ :: _ => Some processed_images
       end |}.

(** The [try] block from the API call on: the response is inspected and
    the outputs are built. *)
Definition call_and_merge (llm : client) (params : chat_params)
    : exn + (value * pystr) :=
  let* response := chat llm params in
  match choices response with
  | None | Some [] =>
    inl (ValueError (u "Invalid response from server: no choices found"))
  | Some (choice :: _) =>
    match message choice with
    | Some {| content := Some response_message |} =>
      let* _ := len response_message in
      let history : loc := 0%nat in
      let h : heap := {[ history := cp_chat_history params ]} in
      inr (response_message,
           fst (_format_chat_history_output rt response history h))
    | _ =>
      inl (ValueError
             (u "Invalid response from server: no message content found"))
    end
  end.

(** The [try] block of [execute_llama_chat], with the cache of clients
    before and after. *)
Definition execute_body (clients : cache) (server_url prompt : pystr)
    (system_prompt chat_history : option pystr)
    (image1 image2 image3 image4 image5 : option tensor)
    : (exn + (value * pystr)) * cache :=
  match process_images [image1; image2; image3; image4; image5] with
  | inl e => (inl e, clients)
  | inr processed_images =>
    if negb (nonblank (Some server_url)) then
      (inl (ValueError (u "server_url cannot be empty")), clients)
    else if negb (nonblank (Some prompt)) then
      (inl (ValueError (u "prompt cannot be empty")), clients)
    else
      let (got, clients') := _get_client clients (strip server_url) in
      (let* llm := got in
       let* parsed_chat_history := parse_history chat_history in
       call_and_merge llm
         (request prompt system_prompt processed_images parsed_chat_history),
       clients')
  end.

(** The inputs are accepted: the images decode, the URL and the prompt
    are not blank, a client is at hand and the chat history, when given,
    parses. *)
Definition accepted (clients : cache) (server_url prompt : pystr)
    (chat_history : option pystr) (slots : list (option tensor))
    (processed_images : list image) (llm : client)
    (parsed_chat_history : list value) : Prop :=
  process_images slots = inr processed_images
  /\ nonblank (Some server_url) = true
  /\ nonblank (Some prompt) = true
  /\ fst (_get_client clients (strip server_url)) = inr llm
  /\ parse_history chat_history = inr parsed_chat_history.

(** [execute_llama_chat]: the pair returned to the host, and the cache of
    clients after the call. *)
Definition execute_llama_chat (clients : cache) (server_url prompt : pystr)
    (system_prompt chat_history : option pystr)
    (image1 image2 image3 image4 image5 : option tensor)
    : (value * pystr) * cache :=
  match execute_body clients server_url prompt system_prompt chat_history
          image1 image2 image3 image4 image5 with
  | (inr result, clients') => (result, clients')
  | (inl e, clients') => (error_result rt e, clients')
  end.
End Node.

(** ** Predicates of the statements *)

(** The Message invariant: a key-value record with a [content] field and a
    [role] that is one of the three valid strings. *)
Definition valid_message (v : value) : bool :=
  match v with
  | VDict d =>
    dict_has d (u "content") &&
    match dict_get d (u "role") with
    | Some (VStr r) => existsb (pystr_eqb r) valid_roles
    | _ => false
    end
  | _ => false
  end.

(** No float occurs in the value. *)
Fixpoint no_float (v : value) : bool :=
  match v with
  | VFloat _ => false
  | VList l => forallb no_float l
  | VDict d => forallb (fun kv => no_float (snd kv)) d
  | _ => true
  end.

(** The keys of every dict are pairwise distinct, as in any Python dict. *)
Fixpoint keys_distinct (v : value) : bool :=
  match v with
  | VList l => forallb keys_distinct l
  | VDict d =>
    bool_decide (NoDup (List.map fst d))
    && forallb (fun kv => keys_distinct (snd kv)) d
  | _ => true
  end.

(** What may follow a value in the output of [dumps]: the end of the text,
    a comma or a line feed. *)
Definition ends_value (rest : pystr) : Prop :=
  match rest with
  | [] => True
  | c :: _ => c = 44 \/ c = 10
  end.

(** The first character of an encoded value: not white space, not a closing
    bracket or brace, not a comma and not a byte order mark. *)
Definition head_ok (s : pystr) : bool :=
  match s with
  | c :: _ =>
    negb (is_ws c) && negb (isspace c) && negb (c =? 93) && negb (c =? 125)
    && negb (c =? 44) && negb (c =? 0xfeff)
  | [] => false
  end.

Definition digit_char (c : char) : Prop := isdigit c = true.

(** A text that does not go on with a digit. *)
Definition no_digit_ahead (rest : pystr) : Prop :=
  match rest with
  | [] => True
  | c :: _ => isdigit c = false
  end.

(** One [key: value] item of an encoded dict. *)
Definition encode_item (rt : runtime) (b : bool) (level : nat)
    (kv : pystr * value) : pystr :=
  encode_basestring b (fst kv) ++ [58; 32] ++ iterencode rt b level (snd kv).

(** [v] is read back from any text that starts with its encoding. *)
Definition reads_back (rt : runtime) (v : value) : Prop :=
  forall (fuel level : nat) (rest : pystr),
    (length (iterencode rt false level v ++ rest) < fuel)%nat ->
    ends_value rest ->
    scan_once fuel (iterencode rt false level v ++ rest) = Some (v, rest).

(** The response shape the node rejects: no non-empty [choices], or a
    first choice without [message] or without [message.content]. *)
Definition lacks_content (response : Response) : bool :=
  match choices response with
  | Some (choice :: _) =>
    match message choice with
    | Some {| content := Some _ |} => false
    | _ => true
    end
  | _ => true
  end.

(** The text of an exception: its first character is [c]. *)
Definition text_starts (rt : runtime) (e : exn) (c : N) : Prop :=
  exists t, str_exn rt e = c :: t.

(** [sc'] is [sc] on the texts of length at most [bound], where [sc] reads
    at least one character. *)
Definition same_scan (sc sc' : pystr -> option (value * pystr)) (bound : nat)
    : Prop :=
  forall t, (length t <= bound)%nat ->
    sc' t = sc t
    /\ forall v r, sc t = Some (v, r) -> (length r < length t)%nat.

(** A Unicode scalar value: a code point that is not a surrogate. *)
Definition scalar (c : N) : bool :=
  (c <? 0x110000) && negb ((0xd800 <=? c) && (c <=? 0xdfff)).

(** The one message of an error history. *)
Definition system_note (text : pystr) : value :=
  VDict [(u "role", VStr (u "system")); (u "content", VStr text)].

(** The text of an error history before and after the escaped note. *)
Definition note_head : pystr := Eval vm_compute in js "[
  {
    'role': 'system',
    'content': '".

Definition note_tail : pystr := Eval vm_compute in js "'
  }
]".

(** The values read by [sc] have dicts with distinct keys. *)
Definition reads_distinct (sc : pystr -> option (value * pystr)) : Prop :=
  forall s v rest, sc s = Some (v, rest) -> keys_distinct v = true.

(** ** Data of the examples *)

(** An interpreter that prints a float as it was written and the set of
    valid roles in the order of the source. *)
Definition plain_runtime : runtime :=
  {| float_repr := fun i f e => i ++ f ++ e;
     valid_roles_repr := u "{'system', 'user', 'assistant'}";
     decode_error_text := fun _ => u "Expecting value: line 1 column 1 (char 0)" |}.

Definition user_hi : value :=
  VDict [(u "role", VStr (u "user")); (u "content", VStr (u "hi"))].

Definition reply (c : value) : Response :=
  {| choices := Some [ {| message := Some {| content := Some c |} |} ] |}.

Definition no_choices : Response := {| choices := Some [] |}.

(** A node without images and with an empty cache of clients, whose
    transport meets every request with the same outcome: a response, or an
    exception. *)
Definition node (outcome : exn + Response) (rt : runtime)
    (server_url prompt : pystr) (system_prompt chat_history : option pystr)
    : value * pystr :=
  fst (execute_llama_chat unit unit unit (fun _ => inr tt) (fun _ => inr tt)
         (fun _ _ => outcome) rt ∅ server_url prompt system_prompt chat_history
         None None None None None).

Definition localhost : pystr := u "http://localhost:8080/v1".

Definition history_text : pystr := js "[{'role': 'user', 'content': 'hi'}]".

Ltac len_in H :=
  repeat first [rewrite length_app in H | progress cbn [length] in H].
Ltac len_goal := repeat first [rewrite length_app | progress cbn [length]].

(** * Properties *)

(** ** Induction on values *)

Section ValueInd.
Variable P : value -> Prop.
Hypothesis HNone : P VNone.
Hypothesis HBool : forall b, P (VBool b).
Hypothesis HInt : forall n, P (VInt n).
Hypothesis HFloat : forall f, P (VFloat f).
Hypothesis HStr : forall s, P (VStr s).
Hypothesis HList : forall l, Forall P l -> P (VList l).
Hypothesis HDict : forall d, Forall (fun kv => P (snd kv)) d -> P (VDict d).

Fixpoint value_ind (v : value) : P v :=
  match v with
  | VNone => HNone
  | VBool b => HBool b
  | VInt n => HInt n
  | VFloat f => HFloat f
  | VStr s => HStr s
  | VList l =>
    HList l
      ((fix all (xs : list value) : Forall P xs :=
          match xs with
          | [] => List.Forall_nil P
          | x :: xs' => List.Forall_cons P x xs' (value_ind x) (all xs')
          end) l)
  | VDict d =>
    HDict d
      ((fix all (kvs : list (pystr * value))
          : Forall (fun kv => P (snd kv)) kvs :=
          match kvs with
          | [] => List.Forall_nil _
          | kv :: kvs' =>
            List.Forall_cons _ kv kvs' (value_ind (snd kv)) (all kvs')
          end) d)
  end.
End ValueInd.

(** ** White space *)

Lemma lstrip_app_nonspace (s : pystr) (c : char) (t : pystr) :
  isspace c = false -> lstrip (s ++ c :: t) <> [].
Proof.
  intros Hc. induction s as [|a s IH]; simpl.
  - rewrite Hc. discriminate.
  - destruct (isspace a); [exact IH | discriminate].
Qed.

Lemma lstrip_all_space (s : pystr) :
  forallb isspace s = true -> lstrip s = [].
Proof.
  induction s as [|a s IH]; simpl; [reflexivity|].
  intros H. apply andb_prop in H as [Ha Hs]. rewrite Ha. auto.
Qed.

Lemma lstrip_nil_inv (s : pystr) : lstrip s = [] -> forallb isspace s = true.
Proof.
  induction s as [|a s IH]; simpl; [reflexivity|].
  destruct (isspace a); [exact IH | discriminate].
Qed.

Lemma lstrip_suffix (s : pystr) : exists p, s = p ++ lstrip s.
Proof.
  induction s as [|a s [p Hp]]; simpl.
  - exists []. reflexivity.
  - destruct (isspace a).
    + exists (a :: p). simpl. congruence.
    + exists []. reflexivity.
Qed.

Lemma lstrip_head (s : pystr) (c : char) (t : pystr) :
  lstrip s = c :: t -> isspace c = false.
Proof.
  induction s as [|a s IH]; simpl; [discriminate|].
  destruct (isspace a) eqn:Ha; [exact IH|].
  intros H. injection H as -> _. exact Ha.
Qed.

(** [s.strip()] is empty exactly when [s] holds white space only. *)
Lemma strip_nil_iff (s : pystr) :
  strip s = [] <-> forallb isspace s = true.
Proof.
  unfold strip, rstrip. split.
  - intros H. destruct (lstrip s) as [|c t] eqn:Hl.
    + apply lstrip_nil_inv. exact Hl.
    + exfalso. apply lstrip_head in Hl as Hc.
      assert (Hr : lstrip (rev (c :: t)) = []).
      { rewrite <- (rev_involutive (lstrip (rev (c :: t)))), H. reflexivity. }
      simpl in Hr. revert Hr. apply lstrip_app_nonspace. exact Hc.
  - intros H. rewrite (lstrip_all_space s H). reflexivity.
Qed.

Lemma strip_head_nonspace (c : char) (s : pystr) :
  isspace c = false -> strip (c :: s) <> [].
Proof.
  intros Hc H. apply strip_nil_iff in H. simpl in H. rewrite Hc in H.
  discriminate.
Qed.

Lemma skip_ws_head (c : char) (s : pystr) :
  is_ws c = false -> skip_ws (c :: s) = c :: s.
Proof. intros H. simpl. rewrite H. reflexivity. Qed.

Lemma skip_ws_spaces (n : nat) (s : pystr) :
  skip_ws (repeat 32 n ++ s) = skip_ws s.
Proof. induction n as [|n IH]; simpl; auto. Qed.

Lemma skip_ws_newline_indent (level : nat) (s : pystr) :
  skip_ws (newline_indent level ++ s) = skip_ws s.
Proof. unfold newline_indent. simpl. apply skip_ws_spaces. Qed.

Lemma head_ok_inv (s : pystr) :
  head_ok s = true ->
  exists c t, s = c :: t /\ is_ws c = false /\ isspace c = false
    /\ c <> 93 /\ c <> 125 /\ c <> 44 /\ c <> 0xfeff.
Proof.
  destruct s as [|c t]; simpl; [discriminate|].
  intros H. repeat (apply andb_prop in H as [H ?]).
  exists c, t. repeat split; try (now apply negb_true_iff);
    apply N.eqb_neq; now apply negb_true_iff.
Qed.

Lemma skip_ws_head_ok (s : pystr) : head_ok s = true -> skip_ws s = s.
Proof.
  intros H. apply head_ok_inv in H as (c & t & -> & Hw & _).
  now apply skip_ws_head.
Qed.

Lemma head_ok_app (s t : pystr) : head_ok s = true -> head_ok (s ++ t) = true.
Proof. destruct s; simpl; [discriminate | auto]. Qed.

(** ** Strings: [scanstring] reads back what [encode_basestring] wrote *)

Lemma scanstring_quote (s : pystr) : scanstring (34 :: s) = Some ([], s).
Proof. reflexivity. Qed.

Lemma scanstring_plain (c : char) (s : pystr) :
  (c =? 34) = false -> (c =? 92) = false -> (c <? 32) = false ->
  scanstring (c :: s) = push c (scanstring s).
Proof. intros H1 H2 H3. cbn [scanstring]. rewrite H1, H2, H3. reflexivity. Qed.

Lemma below_32 (c : N) : c < 32 -> In c (List.map N.of_nat (seq 0 32)).
Proof.
  intros H. apply in_map_iff. exists (N.to_nat c). split; [lia|].
  apply in_seq. lia.
Qed.

Lemma scanstring_control (c : char) (s : pystr) :
  c < 32 -> scanstring (92 :: 117 :: hex4 c ++ s) = push c (scanstring s).
Proof.
  intros H. apply below_32 in H. simpl in H.
  repeat (destruct H as [<-|H]; [reflexivity|]). destruct H.
Qed.

Lemma scanstring_escape_char (c : char) (s : pystr) :
  scanstring (escape_char false c ++ s) = push c (scanstring s).
Proof.
  unfold escape_char, escape_dct.
  destruct (c =? 92) eqn:E1; [apply N.eqb_eq in E1 as ->; reflexivity|].
  destruct (c =? 34) eqn:E2; [apply N.eqb_eq in E2 as ->; reflexivity|].
  destruct (c =? 8) eqn:E3; [apply N.eqb_eq in E3 as ->; reflexivity|].
  destruct (c =? 12) eqn:E4; [apply N.eqb_eq in E4 as ->; reflexivity|].
  destruct (c =? 10) eqn:E5; [apply N.eqb_eq in E5 as ->; reflexivity|].
  destruct (c =? 13) eqn:E6; [apply N.eqb_eq in E6 as ->; reflexivity|].
  destruct (c =? 9) eqn:E7; [apply N.eqb_eq in E7 as ->; reflexivity|].
  destruct (c <? 32) eqn:E8.
  - apply N.ltb_lt in E8. apply (scanstring_control c s E8).
  - cbn [andb app]. now apply scanstring_plain.
Qed.

Lemma scanstring_encode (s rest : pystr) :
  scanstring (flat_map (escape_char false) s ++ 34 :: rest) = Some (s, rest).
Proof.
  induction s as [|c s IH]; cbn [flat_map app].
  - apply scanstring_quote.
  - rewrite <- app_assoc, scanstring_escape_char, IH. reflexivity.
Qed.

Lemma encode_basestring_app (s rest : pystr) :
  encode_basestring false s ++ rest
  = 34 :: flat_map (escape_char false) s ++ 34 :: rest.
Proof. unfold encode_basestring. simpl. now rewrite <- app_assoc. Qed.

(** ** Integers: [match_number] reads back what [int_repr] wrote *)

Lemma uint_chars_digits (d : Decimal.uint) : Forall digit_char (uint_chars d).
Proof. induction d; simpl; constructor; auto; reflexivity. Qed.

Lemma uint_of_chars_inv (d : Decimal.uint) : uint_of_chars (uint_chars d) = d.
Proof.
  unfold uint_of_chars. induction d; simpl; try reflexivity;
    rewrite IHd; reflexivity.
Qed.

Lemma span_digits_app (ds rest : pystr) :
  Forall digit_char ds -> no_digit_ahead rest ->
  span_digits (ds ++ rest) = (ds, rest).
Proof.
  intros Hds Hrest. induction Hds as [|c ds Hc _ IH]; cbn [span_digits app].
  - destruct rest as [|c rest]; [reflexivity|]. cbn [span_digits].
    simpl in Hrest. now rewrite Hrest.
  - unfold digit_char in Hc. rewrite Hc, IH. reflexivity.
Qed.

Lemma unorm_head (d : Decimal.uint) :
  Decimal.unorm d = Decimal.zero \/
  exists c t, uint_chars (Decimal.unorm d) = c :: t
              /\ isdigit c = true /\ (c =? 48) = false.
Proof.
  induction d; simpl; auto; right; eexists _, _; repeat split; reflexivity.
Qed.

Lemma pos_to_uint_head (p : positive) :
  exists c t, uint_chars (Pos.to_uint p) = c :: t
              /\ isdigit c = true /\ (c =? 48) = false.
Proof.
  pose proof (DecimalPos.Unsigned.to_of (Pos.to_uint p)) as H.
  rewrite DecimalPos.Unsigned.of_to in H. simpl in H.
  destruct (unorm_head (Pos.to_uint p)) as [Hz | Hd].
  - exfalso. apply (DecimalPos.Unsigned.to_uint_nonzero p). congruence.
  - rewrite <- H in Hd. exact Hd.
Qed.

Lemma ends_value_no_digit (rest : pystr) : ends_value rest -> no_digit_ahead rest.
Proof. destruct rest as [|c rest]; simpl; [auto|]. now intros [-> | ->]. Qed.

Lemma match_frac_end (rest : pystr) : ends_value rest -> match_frac rest = ([], rest).
Proof. destruct rest as [|c rest]; simpl; [auto|]. now intros [-> | ->]. Qed.

Lemma match_exp_end (rest : pystr) : ends_value rest -> match_exp rest = ([], rest).
Proof. destruct rest as [|c rest]; simpl; [auto|]. now intros [-> | ->]. Qed.

Lemma match_integer_pos (p : positive) (rest : pystr) :
  no_digit_ahead rest ->
  match_integer (uint_chars (Pos.to_uint p) ++ rest)
  = Some (uint_chars (Pos.to_uint p), rest).
Proof.
  intros Hrest. destruct (pos_to_uint_head p) as (c & t & Hp & Hd & Hz).
  pose proof (uint_chars_digits (Pos.to_uint p)) as Hall. rewrite Hp in *.
  apply Forall_cons_1 in Hall as [_ Hall].
  unfold match_integer. cbn [app].
  assert (Hm : (c =? 45) = false).
  { unfold isdigit in Hd. apply andb_prop in Hd as [Hd _].
    apply N.leb_le in Hd. apply N.eqb_neq. lia. }
  rewrite Hm, Hz, Hd, (span_digits_app t rest Hall Hrest). reflexivity.
Qed.

Lemma match_integer_neg (p : positive) (rest : pystr) :
  no_digit_ahead rest ->
  match_integer (45 :: uint_chars (Pos.to_uint p) ++ rest)
  = Some (45 :: uint_chars (Pos.to_uint p), rest).
Proof.
  intros Hrest. destruct (pos_to_uint_head p) as (c & t & Hp & Hd & Hz).
  pose proof (uint_chars_digits (Pos.to_uint p)) as Hall. rewrite Hp in *.
  apply Forall_cons_1 in Hall as [_ Hall].
  unfold match_integer. cbn [app N.eqb Pos.eqb].
  rewrite Hz, Hd, (span_digits_app t rest Hall Hrest). reflexivity.
Qed.

Lemma int_of_lexeme_pos (p : positive) :
  int_of_lexeme (uint_chars (Pos.to_uint p)) = Z.pos p.
Proof.
  destruct (pos_to_uint_head p) as (c & t & Hp & Hd & Hz).
  unfold int_of_lexeme. rewrite Hp.
  assert (Hm : (c =? 45) = false).
  { unfold isdigit in Hd. apply andb_prop in Hd as [Hd _].
    apply N.leb_le in Hd. apply N.eqb_neq. lia. }
  rewrite Hm, <- Hp, uint_of_chars_inv.
  exact (DecimalZ.of_to (Z.pos p)).
Qed.

Lemma int_of_lexeme_neg (p : positive) :
  int_of_lexeme (45 :: uint_chars (Pos.to_uint p)) = Z.neg p.
Proof.
  unfold int_of_lexeme. cbn [N.eqb Pos.eqb]. rewrite uint_of_chars_inv.
  exact (DecimalZ.of_to (Z.neg p)).
Qed.

Lemma match_number_int_repr (n : Z) (rest : pystr) :
  ends_value rest ->
  match_number (int_repr n ++ rest) = Some (VInt n, rest).
Proof.
  intros Hrest. pose proof (ends_value_no_digit rest Hrest) as Hnd.
  unfold match_number, int_repr. destruct n as [|p|p]; cbn [Z.to_int].
  - cbn. rewrite (match_frac_end rest Hrest), (match_exp_end rest Hrest).
    reflexivity.
  - rewrite (match_integer_pos p rest Hnd).
    rewrite (match_frac_end rest Hrest), (match_exp_end rest Hrest).
    now rewrite int_of_lexeme_pos.
  - cbn [app]. rewrite (match_integer_neg p rest Hnd).
    rewrite (match_frac_end rest Hrest), (match_exp_end rest Hrest).
    now rewrite int_of_lexeme_neg.
Qed.

Lemma int_repr_head (n : Z) :
  exists c t, int_repr n = c :: t /\ (c = 45 \/ isdigit c = true).
Proof.
  unfold int_repr. destruct n as [|p|p]; cbn [Z.to_int].
  - exists 48, []. split; [reflexivity | now right].
  - destruct (pos_to_uint_head p) as (c & t & Hp & Hd & _).
    exists c, t. split; [exact Hp | now right].
  - eexists _, _. split; [reflexivity | now left].
Qed.

(** ** Values: [scan_once] reads back what [iterencode] wrote *)

Lemma digit_cases (c : N) :
  isdigit c = true ->
  In c [48; 49; 50; 51; 52; 53; 54; 55; 56; 57].
Proof.
  unfold isdigit. intros H. apply andb_prop in H as [H1 H2].
  apply N.leb_le in H1, H2.
  assert (Hn : (N.to_nat c - 48 < 10)%nat) by lia.
  replace c with (N.of_nat (48 + (N.to_nat c - 48))) by lia.
  destruct (N.to_nat c - 48)%nat as [|[|[|[|[|[|[|[|[|[|k]]]]]]]]]];
    simpl; auto 11; lia.
Qed.

Lemma head_ok_number (c : N) (t : pystr) :
  c = 45 \/ isdigit c = true -> head_ok (c :: t) = true.
Proof.
  intros [-> | H]; [reflexivity|]. apply digit_cases in H. simpl in H.
  repeat (destruct H as [<-|H]; [reflexivity|]). destruct H.
Qed.

Lemma iterencode_list (rt : runtime) (b : bool) (level : nat) (x : value)
    (xs : list value) :
  iterencode rt b level (VList (x :: xs))
  = 91 :: newline_indent (S level)
      ++ join (44 :: newline_indent (S level))
           (List.map (iterencode rt b (S level)) (x :: xs))
      ++ newline_indent level ++ [93].
Proof. reflexivity. Qed.

Lemma iterencode_dict (rt : runtime) (b : bool) (level : nat)
    (kv : pystr * value) (d : list (pystr * value)) :
  iterencode rt b level (VDict (kv :: d))
  = 123 :: newline_indent (S level)
      ++ join (44 :: newline_indent (S level))
           (List.map (encode_item rt b (S level)) (kv :: d))
      ++ newline_indent level ++ [125].
Proof. reflexivity. Qed.

Lemma head_ok_iterencode (rt : runtime) (level : nat) (v : value) :
  no_float v = true -> head_ok (iterencode rt false level v) = true.
Proof.
  destruct v as [|[|]|n|f|s|[|x xs]|[|kv d]]; try reflexivity.
  - intros _. cbn [iterencode].
    destruct (int_repr_head n) as (c & t & -> & Hc).
    now apply head_ok_number.
  - discriminate.
Qed.

Lemma join_single (sep p : pystr) : join sep [p] = p.
Proof. reflexivity. Qed.

Lemma join_more (sep p q : pystr) (ps : list pystr) :
  join sep (p :: q :: ps) = p ++ sep ++ join sep (q :: ps).
Proof. reflexivity. Qed.

Lemma scan_once_number (f : nat) (c : N) (t : pystr) :
  c = 45 \/ isdigit c = true ->
  match_number (c :: t) <> None ->
  scan_once (S f) (c :: t) = match_number (c :: t).
Proof.
  intros Hc Hm.
  assert (Hscan : scan_once (S f) (c :: t)
                  = match match_number (c :: t) with
                    | Some r => Some r
                    | None => scan_once (S f) (c :: t)
                    end).
  { destruct (match_number (c :: t)) eqn:E; [|reflexivity].
    destruct Hc as [-> | H].
    - cbn. cbn in E. rewrite E. reflexivity.
    - apply digit_cases in H. simpl in H.
      repeat (destruct H as [<-|H]; [cbn; cbn in E; rewrite E; reflexivity|]).
      destruct H. }
  rewrite Hscan. destruct (match_number (c :: t)); [reflexivity | congruence].
Qed.

Lemma ends_value_newline (level : nat) (s : pystr) :
  ends_value (newline_indent level ++ s).
Proof. simpl. now right. Qed.

Lemma array_loop_join (rt : runtime) (f level : nat) (xs : list value) :
  xs <> [] ->
  Forall (fun x => no_float x = true /\ reads_back rt x) xs ->
  forall (n : nat) (rest : pystr),
    let text := join (44 :: newline_indent (S level))
                  (List.map (iterencode rt false (S level)) xs)
                ++ newline_indent level ++ 93 :: rest in
    (length text < f)%nat -> (length text < n)%nat ->
    array_loop (scan_once f) n text = Some (xs, rest).
Proof.
  intros Hne Hall. induction Hall as [|x xs [Hnf Hx] Hall IH]; [congruence|].
  clear Hne. intros n rest text Hf Hn. subst text.
  destruct n as [|n]; [lia|]. destruct xs as [|y ys].
  - cbn [List.map] in *. rewrite join_single in *. cbn [array_loop].
    rewrite (Hx f (S level) _ Hf (ends_value_newline _ _)).
    rewrite skip_ws_newline_indent. reflexivity.
  - cbn [List.map] in *. rewrite join_more in *.
    rewrite <- !app_assoc in *. cbn [app] in *. cbn [array_loop].
    rewrite (Hx f (S level) _ Hf); [|simpl; now left].
    cbn [skip_ws is_ws N.eqb Pos.eqb orb]. cbn [N.eqb Pos.eqb].
    rewrite skip_ws_newline_indent.
    len_in Hf. len_in Hn.
    assert (Hy : no_float y = true) by (apply Forall_cons_1 in Hall as [[? _] _]; auto).
    rewrite skip_ws_head_ok.
    2:{ destruct ys; cbn [List.map]; [rewrite join_single | rewrite join_more];
        repeat apply head_ok_app; now apply head_ok_iterencode. }
    rewrite (IH ltac:(discriminate) n rest); [reflexivity | |];
      cbn [List.map]; len_goal; lia.
Qed.

Lemma encode_item_app (rt : runtime) (level : nat) (k : pystr) (v : value)
    (rest : pystr) :
  encode_item rt false level (k, v) ++ rest
  = 34 :: flat_map (escape_char false) k
      ++ 34 :: 58 :: 32 :: iterencode rt false level v ++ rest.
Proof.
  unfold encode_item, encode_basestring. cbn [fst snd app].
  rewrite <- !app_assoc. reflexivity.
Qed.

Lemma items_text_head (rt : runtime) (level : nat) (sep : pystr)
    (kv : pystr * value) (d : list (pystr * value)) (rest : pystr) :
  exists tail,
    join sep (List.map (encode_item rt false level) (kv :: d)) ++ rest
    = 34 :: tail.
Proof.
  destruct kv as [k v]. cbn [List.map].
  destruct d as [|kv' d]; cbn [List.map];
    [rewrite join_single | rewrite join_more; rewrite <- app_assoc];
    rewrite encode_item_app; eauto.
Qed.

Lemma object_loop_join (rt : runtime) (f level : nat)
    (d : list (pystr * value)) :
  d <> [] ->
  Forall (fun kv => no_float (snd kv) = true /\ reads_back rt (snd kv)) d ->
  forall (n : nat) (rest : pystr),
    let text := join (44 :: newline_indent (S level))
                  (List.map (encode_item rt false (S level)) d)
                ++ newline_indent level ++ 125 :: rest in
    (length text < f)%nat -> (length text < n)%nat ->
    object_loop (scan_once f) n (tl text) = Some (d, rest).
Proof.
  intros Hne Hall. induction Hall as [|[k v] d [Hnf Hv] Hall IH]; [congruence|].
  clear Hne. cbn [snd] in Hnf, Hv. intros n rest text Hf Hn. subst text.
  destruct n as [|n]; [lia|]. destruct d as [|kv d].
  - cbn [List.map] in *. rewrite join_single in *.
    rewrite encode_item_app in *. cbn [tl object_loop].
    rewrite scanstring_encode. cbn [skip_ws is_ws N.eqb Pos.eqb orb].
    rewrite skip_ws_head_ok
      by (apply head_ok_app; now apply head_ok_iterencode).
    len_in Hf. rewrite (Hv f (S level)); [| len_goal; lia | apply ends_value_newline].
    rewrite skip_ws_newline_indent. reflexivity.
  - cbn [List.map] in Hf, Hn |- *. rewrite join_more in *.
    rewrite <- !app_assoc in *. rewrite encode_item_app in *.
    cbn [tl object_loop]. rewrite scanstring_encode.
    cbn [skip_ws is_ws N.eqb Pos.eqb orb].
    rewrite skip_ws_head_ok
      by (apply head_ok_app; now apply head_ok_iterencode).
    len_in Hf. len_in Hn.
    rewrite (Hv f (S level)); [| len_goal; lia | simpl; now left].
    cbn [app skip_ws is_ws N.eqb Pos.eqb orb].
    rewrite skip_ws_newline_indent.
    specialize (IH ltac:(discriminate) n rest). cbn zeta in IH.
    destruct (items_text_head rt (S level) (44 :: newline_indent (S level))
                kv d (newline_indent level ++ 125 :: rest)) as [tail Htail].
    rewrite Htail in IH. cbn [tl] in IH. cbn [List.map] in Htail.
    pose proof (f_equal (@length N) Htail) as Hlen. len_in Hlen.
    rewrite Htail. cbn [skip_ws is_ws N.eqb Pos.eqb orb].
    rewrite IH; [reflexivity | |]; cbn [length]; lia.
Qed.

Lemma dict_set_fresh (d : list (pystr * value)) (k : pystr) (v : value) :
  ~ In k (List.map fst d) -> dict_set d k v = d ++ [(k, v)].
Proof.
  induction d as [|[k' v'] d IH]; cbn [dict_set List.map fst In app];
    [reflexivity|].
  intros H. unfold pystr_eqb. rewrite bool_decide_eq_false_2 by tauto.
  rewrite IH by tauto. reflexivity.
Qed.

Lemma fold_dict_set_distinct (d acc : list (pystr * value)) :
  NoDup (List.map fst (acc ++ d)) ->
  fold_left (fun a kv => dict_set a (fst kv) (snd kv)) d acc = acc ++ d.
Proof.
  revert acc. induction d as [|[k v] d IH]; intros acc H; cbn [fold_left].
  - now rewrite app_nil_r.
  - cbn [fst snd]. rewrite dict_set_fresh.
    + rewrite IH; rewrite <- app_assoc; [reflexivity | exact H].
    + rewrite List.map_app in H. cbn [List.map fst] in H.
      apply NoDup_app in H as (_ & Hdisj & _). intros Hin.
      apply (Hdisj k); [now apply list_elem_of_In | constructor].
Qed.

Lemma dict_of_pairs_distinct (d : list (pystr * value)) :
  NoDup (List.map fst d) -> dict_of_pairs d = d.
Proof. intros H. unfold dict_of_pairs. now rewrite fold_dict_set_distinct. Qed.

(** Every float-free value is read back from its encoding, at any
    indentation level and before any text that may follow a value. *)
Lemma scan_once_iterencode (rt : runtime) (v : value) :
  no_float v = true -> keys_distinct v = true -> reads_back rt v.
Proof.
  induction v as [|b|n|f|s|l IH|d IH] using value_ind;
    intros Hnf Hkd fuel level rest Hfuel Hrest;
    (destruct fuel as [|fuel]; [lia|]).
  - reflexivity.
  - destruct b; reflexivity.
  - cbn [iterencode] in *. rewrite <- (match_number_int_repr n rest Hrest).
    destruct (int_repr_head n) as (c & t & Hc & Hd). rewrite Hc. cbn [app].
    apply scan_once_number; [exact Hd|].
    change (c :: t ++ rest) with ((c :: t) ++ rest).
    rewrite <- Hc, (match_number_int_repr n rest Hrest). discriminate.
  - discriminate.
  - cbn [iterencode]. rewrite encode_basestring_app. cbn [scan_once N.eqb Pos.eqb].
    rewrite scanstring_encode. reflexivity.
  - destruct l as [|x xs]; [reflexivity|].
    rewrite iterencode_list in *. cbn [app] in *. rewrite <- !app_assoc in *.
    cbn [app] in *. cbn [scan_once N.eqb Pos.eqb]. unfold JSONArray.
    rewrite skip_ws_newline_indent.
    assert (Hhead : head_ok
              (join (44 :: newline_indent (S level))
                 (List.map (iterencode rt false (S level)) (x :: xs))
               ++ newline_indent level ++ 93 :: rest) = true).
    { cbn [no_float forallb] in Hnf. apply andb_prop in Hnf as [Hx _].
      cbn [List.map]. destruct xs; cbn [List.map];
        [rewrite join_single | rewrite join_more];
        repeat apply head_ok_app; now apply head_ok_iterencode. }
    rewrite (skip_ws_head_ok _ Hhead).
    destruct (head_ok_inv _ Hhead) as (c & t & Hct & _ & _ & Hc & _).
    rewrite Hct. apply N.eqb_neq in Hc. rewrite Hc, <- Hct.
    cbn [length] in Hfuel. len_in Hfuel.
    rewrite (array_loop_join rt fuel level (x :: xs)); [reflexivity |discriminate | | |].
    + cbn [no_float keys_distinct] in Hnf, Hkd.
      rewrite forallb_forall in Hnf, Hkd.
      rewrite List.Forall_forall in IH |- *. intros y Hy.
      split; [now apply Hnf|]. apply IH; auto.
    + len_goal. lia.
    + len_goal. lia.
  - destruct d as [|kv d]; [reflexivity|].
    rewrite iterencode_dict in *. cbn [app] in *. rewrite <- !app_assoc in *.
    cbn [app] in *. cbn [scan_once N.eqb Pos.eqb]. unfold JSONObject.
    rewrite skip_ws_newline_indent.
    destruct (items_text_head rt (S level) (44 :: newline_indent (S level))
                kv d (newline_indent level ++ 125 :: rest)) as [tail Htail].
    cbn [no_float keys_distinct] in Hnf, Hkd.
    apply andb_prop in Hkd as [Hnd Hkd]. apply bool_decide_eq_true_1 in Hnd.
    rewrite forallb_forall in Hnf, Hkd.
    assert (Hall : Forall (fun kv => no_float (snd kv) = true
                                     /\ reads_back rt (snd kv)) (kv :: d)).
    { rewrite List.Forall_forall in IH |- *. intros y Hy.
      split; [now apply Hnf|]. apply IH; auto. }
    pose proof (object_loop_join rt fuel level (kv :: d) ltac:(discriminate)
                  Hall fuel rest) as Hloop.
    cbn zeta in Hloop. rewrite Htail in *.
    cbn [skip_ws is_ws N.eqb Pos.eqb orb]. cbn [tl] in Hloop.
    cbn [length] in Hfuel, Hloop.
    len_in Hfuel.
    rewrite Hloop; [now rewrite dict_of_pairs_distinct | lia | lia].
Qed.

(** [json.loads(json.dumps(v, indent=2, ensure_ascii=False)) == v] for every
    float-free value. *)
Lemma loads_dumps (rt : runtime) (v : value) :
  no_float v = true -> keys_distinct v = true ->
  loads (dumps rt false v) = Some v.
Proof.
  intros Hnf Hkd. unfold loads, dumps.
  pose proof (head_ok_iterencode rt 0 v Hnf) as Hhead.
  destruct (head_ok_inv _ Hhead) as (c & t & Hct & _ & _ & _ & _ & _ & Hbom).
  unfold startswith_bom. rewrite Hct. apply N.eqb_neq in Hbom. rewrite Hbom.
  rewrite <- Hct, (skip_ws_head_ok _ Hhead).
  pose proof (scan_once_iterencode rt v Hnf Hkd
                (S (length (iterencode rt false 0 v))) 0%nat []) as H.
  rewrite app_nil_r in H. rewrite H; [reflexivity | lia | exact I].
Qed.

(** ** The fuel of [scan_once] is never exhausted *)

Lemma skip_ws_length (s : pystr) : (length (skip_ws s) <= length s)%nat.
Proof.
  induction s as [|c s IH]; cbn [skip_ws length]; [lia|].
  destruct (is_ws c); cbn [length]; lia.
Qed.

Lemma push_inv (c : N) (r : option (pystr * pystr)) (x rest : pystr) :
  push c r = Some (x, rest) -> exists x', r = Some (x', rest).
Proof.
  destruct r as [[x' rest']|]; cbn [push]; [|discriminate].
  intros H. injection H as _ ->. eauto.
Qed.

Lemma scanstring_shrinks_below (n : nat) (s x rest : pystr) :
  (length s < n)%nat ->
  scanstring s = Some (x, rest) -> (length rest < length s)%nat.
Proof.
  revert s x rest. induction n as [|n IH]; intros s x rest Hn; [lia|].
  assert (Hpush : forall c t, (length t < length s)%nat ->
            push c (scanstring t) = Some (x, rest) ->
            (length rest < length s)%nat).
  { intros c t Ht Hp. apply push_inv in Hp as [x' Hx'].
    apply IH in Hx'; lia. }
  destruct s as [|c s1]; cbn [scanstring]; [discriminate|].
  cbn [length] in *.
  repeat match goal with
         | |- Some _ = Some _ -> _ =>
           let H := fresh in intros H; injection H as _ <-; cbn [length]; lia
         | |- None = Some _ -> _ => discriminate
         | |- push _ (scanstring ?t) = Some _ -> _ =>
           apply Hpush; cbn [length]; lia
         | |- context [match ?t with _ => _ end] =>
           destruct t; cbn [length] in *
         end.
Qed.

Lemma scanstring_shrinks (s x rest : pystr) :
  scanstring s = Some (x, rest) -> (length rest < length s)%nat.
Proof. apply (scanstring_shrinks_below (S (length s))). lia. Qed.

Lemma span_digits_length (s : pystr) :
  (length (snd (span_digits s)) <= length s)%nat.
Proof.
  induction s as [|c s IH]; cbn [span_digits]; [cbn; lia|].
  destruct (isdigit c); [|cbn; lia].
  destruct (span_digits s) as [ds rest]. cbn [snd length] in *. lia.
Qed.

Lemma match_integer_shrinks (s lex rest : pystr) :
  match_integer s = Some (lex, rest) -> (length rest < length s)%nat.
Proof.
  unfold match_integer.
  assert (Hcore : forall (sign s0 : pystr),
            (length s0 <= length s)%nat ->
            match s0 with
            | [] => None
            | c :: s1 =>
              if c =? 48 then Some (sign ++ [48], s1)
              else if isdigit c
                   then let (ds, rest0) := span_digits s1 in
                        Some (sign ++ c :: ds, rest0)
                   else None
            end = Some (lex, rest) -> (length rest < length s)%nat).
  { intros sign [|c s1] Hlen; [discriminate|]. cbn [length] in Hlen.
    destruct (c =? 48); [intros H; injection H as _ <-; lia|].
    destruct (isdigit c); [|discriminate].
    pose proof (span_digits_length s1) as Hsp.
    destruct (span_digits s1) as [ds rest0]. cbn [snd] in Hsp.
    intros H; injection H as _ <-. lia. }
  destruct s as [|c s']; [discriminate|].
  destruct (c =? 45);
    [apply (Hcore [45] s') | apply (Hcore [] (c :: s'))]; cbn [length]; lia.
Qed.

Lemma match_frac_length (s : pystr) :
  (length (snd (match_frac s)) <= length s)%nat.
Proof.
  unfold match_frac. destruct s as [|c s1]; [cbn; lia|].
  destruct (c =? 46); [|cbn; lia].
  pose proof (span_digits_length s1) as Hsp.
  destruct (span_digits s1) as [[|d ds] rest]; cbn [snd length] in *; lia.
Qed.

Lemma match_exp_length (s : pystr) :
  (length (snd (match_exp s)) <= length s)%nat.
Proof.
  unfold match_exp. destruct s as [|c s1]; [cbn; lia|].
  destruct ((c =? 101) || (c =? 69)); [|cbn; lia].
  assert (Hsign : forall sign s2, (length s2 <= length s1)%nat ->
            (length (snd match span_digits s2 with
                         | ([], _) => ([], c :: s1)
                         | (ds, rest) => (c :: sign ++ ds, rest)
                         end) <= length (c :: s1))%nat).
  { intros sign s2 Hlen. pose proof (span_digits_length s2) as Hsp.
    destruct (span_digits s2) as [[|d ds] rest]; cbn [snd length] in *; lia. }
  destruct s1 as [|g s']; [apply (Hsign [] []); lia|].
  destruct ((g =? 45) || (g =? 43));
    [apply (Hsign [g] s') | apply (Hsign [] (g :: s'))]; cbn [length]; lia.
Qed.

Lemma match_number_shrinks (s : pystr) (v : value) (rest : pystr) :
  match_number s = Some (v, rest) -> (length rest < length s)%nat.
Proof.
  unfold match_number.
  destruct (match_integer s) as [[integer s1]|] eqn:Hi; [|discriminate].
  apply match_integer_shrinks in Hi.
  pose proof (match_frac_length s1) as Hf.
  destruct (match_frac s1) as [frac s2]. cbn [snd] in Hf.
  pose proof (match_exp_length s2) as He.
  destruct (match_exp s2) as [exp s3]. cbn [snd] in He.
  destruct frac, exp; intros H; injection H as _ <-; lia.
Qed.

Lemma strip_prefix_shrinks (p s rest : pystr) :
  p <> [] -> strip_prefix p s = Some rest -> (length rest < length s)%nat.
Proof.
  intros Hp. assert (H : forall p s, strip_prefix p s = Some rest ->
                       (length rest + length p = length s)%nat).
  { clear. induction p as [|a p IH]; intros s; cbn [strip_prefix].
    - intros H. injection H as <-. cbn. lia.
    - destruct s as [|b s]; [discriminate|].
      destruct (a =? b); [|discriminate]. intros H%IH. cbn [length]. lia. }
  intros Hs%H. destruct p; [congruence|]. cbn [length] in Hs. lia.
Qed.

Lemma array_loop_fuel (sc sc' : pystr -> option (value * pystr)) (bound : nat) :
  same_scan sc sc' bound ->
  forall (n n' : nat) (s : pystr),
    (length s <= bound)%nat -> (length s < n)%nat -> (length s < n')%nat ->
    array_loop sc' n' s = array_loop sc n s
    /\ forall vs r, array_loop sc n s = Some (vs, r) ->
         (length r < length s)%nat.
Proof.
  intros Hsame. induction n as [|n IH]; intros n' s Hb Hn Hn'; [lia|].
  destruct n' as [|n']; [lia|]. cbn [array_loop].
  destruct (Hsame s Hb) as [-> Hshrink].
  destruct (sc s) as [[v s1]|]; [|split; [reflexivity | discriminate]].
  specialize (Hshrink v s1 eq_refl).
  pose proof (skip_ws_length s1) as Hws.
  destruct (skip_ws s1) as [|c s2]; [split; [reflexivity | discriminate]|].
  cbn [length] in Hws.
  destruct (c =? 93);
    [split; [reflexivity | intros vs r H; injection H as _ <-; lia]|].
  destruct (c =? 44); [|split; [reflexivity | discriminate]].
  pose proof (skip_ws_length s2) as Hws2.
  destruct (IH n' (skip_ws s2)) as [-> Hrec]; [lia | lia | lia |].
  split; [reflexivity|].
  destruct (array_loop sc n (skip_ws s2)) as [[vs0 r0]|]; [|discriminate].
  intros vs r H; injection H as _ <-. specialize (Hrec vs0 r0 eq_refl). lia.
Qed.

Lemma object_loop_fuel (sc sc' : pystr -> option (value * pystr)) (bound : nat) :
  same_scan sc sc' bound ->
  forall (n n' : nat) (s : pystr),
    (length s <= bound)%nat -> (length s < n)%nat -> (length s < n')%nat ->
    object_loop sc' n' s = object_loop sc n s
    /\ forall kvs r, object_loop sc n s = Some (kvs, r) ->
         (length r < length s)%nat.
Proof.
  intros Hsame. induction n as [|n IH]; intros n' s Hb Hn Hn'; [lia|].
  destruct n' as [|n']; [lia|]. cbn [object_loop].
  destruct (scanstring s) as [[key s1]|] eqn:Hkey;
    [|split; [reflexivity | discriminate]].
  apply scanstring_shrinks in Hkey.
  pose proof (skip_ws_length s1) as Hws1.
  destruct (skip_ws s1) as [|c s2]; [split; [reflexivity | discriminate]|].
  cbn [length] in Hws1.
  destruct (c =? 58); [|split; [reflexivity | discriminate]].
  pose proof (skip_ws_length s2) as Hws2.
  destruct (Hsame (skip_ws s2)) as [-> Hshrink]; [lia|].
  destruct (sc (skip_ws s2)) as [[v s3]|]; [|split; [reflexivity | discriminate]].
  specialize (Hshrink v s3 eq_refl).
  pose proof (skip_ws_length s3) as Hws3.
  destruct (skip_ws s3) as [|c' s4]; [split; [reflexivity | discriminate]|].
  cbn [length] in Hws3.
  destruct (c' =? 125);
    [split; [reflexivity | intros kvs r H; injection H as _ <-; lia]|].
  destruct (c' =? 44); [|split; [reflexivity | discriminate]].
  pose proof (skip_ws_length s4) as Hws4.
  destruct (skip_ws s4) as [|q s5]; [split; [reflexivity | discriminate]|].
  cbn [length] in Hws4.
  destruct (q =? 34); [|split; [reflexivity | discriminate]].
  destruct (IH n' s5) as [-> Hrec]; [lia | lia | lia |].
  split; [reflexivity|].
  destruct (object_loop sc n s5) as [[kvs0 r0]|]; [|discriminate].
  intros kvs r H; injection H as _ <-. specialize (Hrec kvs0 r0 eq_refl). lia.
Qed.

Lemma JSONArray_fuel (sc sc' : pystr -> option (value * pystr)) (n n' : nat)
    (s : pystr) :
  same_scan sc sc' (length s) -> (length s < n)%nat -> (length s < n')%nat ->
  JSONArray sc' n' s = JSONArray sc n s
  /\ forall v r, JSONArray sc n s = Some (v, r) -> (length r <= length s)%nat.
Proof.
  intros Hsame Hn Hn'. unfold JSONArray.
  pose proof (skip_ws_length s) as Hws.
  destruct (skip_ws s) as [|c s1] eqn:Hs; [split; [reflexivity | discriminate]|].
  rewrite <- Hs in *. cbn [length] in Hws.
  destruct (c =? 93).
  - split; [reflexivity|]. intros v r H; injection H as _ <-.
    rewrite Hs in Hws. cbn [length] in Hws. lia.
  - destruct (array_loop_fuel sc sc' (length s) Hsame n n' (skip_ws s))
      as [-> Hshrink]; [lia | lia | lia |].
    split; [reflexivity|].
    destruct (array_loop sc n (skip_ws s)) as [[vs r0]|]; [|discriminate].
    intros v r H; injection H as _ <-. specialize (Hshrink vs r0 eq_refl). lia.
Qed.

Lemma JSONObject_fuel (sc sc' : pystr -> option (value * pystr)) (n n' : nat)
    (s : pystr) :
  same_scan sc sc' (length s) -> (length s < n)%nat -> (length s < n')%nat ->
  JSONObject sc' n' s = JSONObject sc n s
  /\ forall v r, JSONObject sc n s = Some (v, r) -> (length r <= length s)%nat.
Proof.
  intros Hsame Hn Hn'. unfold JSONObject.
  pose proof (skip_ws_length s) as Hws.
  destruct (skip_ws s) as [|c s1]; [split; [reflexivity | discriminate]|].
  cbn [length] in Hws.
  destruct (c =? 125);
    [split; [reflexivity | intros v r H; injection H as _ <-; lia]|].
  destruct (c =? 34); [|split; [reflexivity | discriminate]].
  destruct (object_loop_fuel sc sc' (length s) Hsame n n' s1)
    as [-> Hshrink]; [lia | lia | lia |].
  split; [reflexivity|].
  destruct (object_loop sc n s1) as [[kvs r0]|]; [|discriminate].
  intros v r H; injection H as _ <-. specialize (Hshrink kvs r0 eq_refl). lia.
Qed.

(** Two amounts of fuel above the length of the text give the same result,
    and a value that is read takes at least one character. *)
Lemma scan_once_fuel (f f' bound : nat) :
  (bound < f)%nat -> (bound < f')%nat ->
  same_scan (scan_once f) (scan_once f') bound.
Proof.
  revert f' bound. induction f as [|f IH]; intros f' bound Hf Hf'; [lia|].
  destruct f' as [|f']; [lia|]. intros t Ht.
  destruct t as [|c s1]; cbn [scan_once]; [split; [reflexivity | discriminate]|].
  cbn [length] in Ht.
  assert (Hsame : same_scan (scan_once f) (scan_once f') (length s1))
    by (apply IH; lia).
  destruct (c =? 34).
  { split; [reflexivity|].
    destruct (scanstring s1) as [[str rest]|] eqn:Hs; [|discriminate].
    apply scanstring_shrinks in Hs.
    intros v r H; injection H as _ <-. cbn [length]. lia. }
  destruct (c =? 123).
  { destruct (JSONObject_fuel _ _ f f' s1 Hsame) as [-> Hshrink]; [lia | lia |].
    split; [reflexivity|]. intros v r H%Hshrink. cbn [length]. lia. }
  destruct (c =? 91).
  { destruct (JSONArray_fuel _ _ f f' s1 Hsame) as [-> Hshrink]; [lia | lia |].
    split; [reflexivity|]. intros v r H%Hshrink. cbn [length]. lia. }
  split; [reflexivity|]. intros v r.
  repeat match goal with
         | |- context [strip_prefix ?p ?s] =>
           let E := fresh "E" in
           destruct (strip_prefix p s) eqn:E;
           [apply strip_prefix_shrinks in E; [|discriminate]|]
         | |- context [match_number ?s] =>
           let E := fresh "E" in
           destruct (match_number s) as [[? ?]|] eqn:E;
           [apply match_number_shrinks in E|]
         end;
    try discriminate; intros H; injection H as _ <-; assumption.
Qed.

(** [json.loads] with any amount of fuel above the length of the text. *)
Lemma loads_fuel (s : pystr) (fuel : nat) :
  (length s < fuel)%nat ->
  loads s
  = if startswith_bom s then None
    else
      match scan_once fuel (skip_ws s) with
      | Some (obj, rest) =>
        match skip_ws rest with
        | [] => Some obj
        | _ :: _ => None
        end
      | None => None
      end.
Proof.
  intros H. unfold loads. pose proof (skip_ws_length s) as Hws.
  destruct (scan_once_fuel (S (length s)) fuel (length s)
              ltac:(lia) H (skip_ws s) Hws) as [-> _].
  reflexivity.
Qed.

(** ** [_parse_chat_history] *)

Lemma parse_guard_blank (s : pystr) :
  forallb isspace s = true ->
  negb (truthy s) || pystr_eqb (strip s) [] = true.
Proof.
  intros H. apply strip_nil_iff in H. unfold pystr_eqb. rewrite H.
  rewrite bool_decide_eq_true_2 by reflexivity. apply orb_true_r.
Qed.

Lemma parse_guard_nonblank (s : pystr) :
  forallb isspace s = false ->
  negb (truthy s) || pystr_eqb (strip s) [] = false.
Proof.
  intros H. destruct s as [|c s]; [discriminate|]. cbn [truthy negb orb].
  unfold pystr_eqb. apply bool_decide_eq_false_2. intros Hs.
  apply strip_nil_iff in Hs. congruence.
Qed.

(** On a text that is not blank, [_parse_chat_history] is its [try] block
    followed by the two handlers. *)
Lemma parse_nonblank (rt : runtime) (s : pystr) :
  forallb isspace s = false ->
  _parse_chat_history rt s
  = match parse_body rt s with
    | inr chat_history => inr chat_history
    | inl (JSONDecodeError doc) =>
      inl (ValueError (u "Invalid JSON in chat_history: "
                         ++ str_exn rt (JSONDecodeError doc)))
    | inl e => inl (ValueError (u "Error parsing chat_history: " ++ str_exn rt e))
    end.
Proof.
  intros H. unfold _parse_chat_history.
  now rewrite (parse_guard_nonblank s H).
Qed.

Lemma check_message_valid (rt : runtime) (i : nat) (v : value) :
  valid_message v = true -> check_message rt i v = inr tt.
Proof.
  destruct v as [| | | | | |d]; try discriminate. cbn [valid_message].
  intros H. apply andb_prop in H as [Hc Hr]. unfold check_message.
  unfold dict_has at 1, getitem.
  destruct (dict_get d (u "role")) as [[| | | |r| |]|]; try discriminate.
  rewrite Hc. cbn [negb orb bind]. unfold in_valid_roles.
  cbn [hash_value bind]. rewrite Hr. reflexivity.
Qed.

Lemma check_messages_valid (rt : runtime) (i : nat) (l : list value) :
  forallb valid_message l = true -> check_messages rt i l = inr tt.
Proof.
  revert i. induction l as [|v l IH]; intros i H; [reflexivity|].
  cbn [forallb] in H. apply andb_prop in H as [Hv Hl].
  cbn [check_messages]. rewrite (check_message_valid rt i v Hv). cbn [bind].
  now apply IH.
Qed.

(** Fail-fast: the elements before the first rejected one are accepted, the
    rejected one decides the exception, and what follows it is not read. *)
Lemma check_messages_first_invalid (rt : runtime) (i : nat)
    (pre post : list value) (bad : value) (e : exn) :
  forallb valid_message pre = true ->
  check_message rt (i + length pre) bad = inl e ->
  check_messages rt i (pre ++ bad :: post) = inl e.
Proof.
  revert i. induction pre as [|v pre IH]; intros i Hpre Hbad.
  - cbn [app check_messages]. cbn [length] in Hbad.
    rewrite Nat.add_0_r in Hbad. now rewrite Hbad.
  - cbn [forallb] in Hpre. apply andb_prop in Hpre as [Hv Hpre].
    cbn [app check_messages]. rewrite (check_message_valid rt i v Hv).
    cbn [bind]. apply IH; [exact Hpre|].
    cbn [length] in Hbad. now rewrite Nat.add_succ_comm.
Qed.

Lemma check_message_dict (rt : runtime) (i : nat) (d : list (pystr * value)) :
  check_message rt i (VDict d)
  = if negb (dict_has d (u "role")) || negb (dict_has d (u "content")) then
      inl (ValueError (msg_missing_fields i))
    else
      match dict_get d (u "role") with
      | None => inl (KeyError (u "role"))
      | Some role =>
        match hash_value role with
        | inl e => inl e
        | inr (HStr r) =>
          if existsb (pystr_eqb r) valid_roles then inr tt
          else inl (ValueError (msg_invalid_role rt i (HStr r)))
        | inr h => inl (ValueError (msg_invalid_role rt i h))
        end
      end.
Proof.
  unfold check_message, getitem, in_valid_roles.
  destruct (negb (dict_has d (u "role")) || negb (dict_has d (u "content")));
    [reflexivity|].
  destruct (dict_get d (u "role")) as [role|]; [|reflexivity].
  destruct role; cbn [hash_value bind negb]; try reflexivity.
  destruct (existsb (pystr_eqb s) valid_roles); reflexivity.
Qed.

(** The text of every exception of the element loop starts with [M] (a
    message of the node), [u] (unhashable role) or an apostrophe. *)
Lemma check_message_error_head (rt : runtime) (i : nat) (v : value) (e : exn) :
  check_message rt i v = inl e ->
  (forall doc, e <> JSONDecodeError doc) /\
  (text_starts rt e 77 \/ text_starts rt e 117 \/ text_starts rt e 39).
Proof.
  assert (Hmsg : forall m, ValueError (u "Message " ++ m) = e ->
            (forall doc, e <> JSONDecodeError doc) /\
            (text_starts rt e 77 \/ text_starts rt e 117 \/ text_starts rt e 39)).
  { intros m <-. split; [discriminate|]. left. eexists. reflexivity. }
  assert (Hother : forall c t, (c = 117 \/ c = 39) ->
            (TypeError (c :: t) = e \/ KeyError (u "role") = e) ->
            (forall doc, e <> JSONDecodeError doc) /\
            (text_starts rt e 77 \/ text_starts rt e 117 \/ text_starts rt e 39)).
  { intros c t Hc [<- | <-]; (split; [discriminate|]).
    - destruct Hc as [-> | ->]; [right; left | right; right];
        eexists; reflexivity.
    - right; right. eexists. reflexivity. }
  destruct v as [| | | | | |d];
    try (intros H; injection H as H; exact (Hmsg _ H)).
  rewrite check_message_dict.
  destruct (negb (dict_has d (u "role")) || negb (dict_has d (u "content")));
    [intros H; injection H as H; exact (Hmsg _ H)|].
  destruct (dict_get d (u "role")) as [role|].
  - destruct role; cbn [hash_value];
      try (intros H; injection H as H; exact (Hmsg _ H));
      try (intros H; injection H as H; refine (Hother _ _ _ (or_introl H));
           now left).
    destruct (existsb (pystr_eqb s) valid_roles); [discriminate|].
    intros H; injection H as H; exact (Hmsg _ H).
  - intros H; injection H as H.
    exact (Hother 39 [] (or_intror eq_refl) (or_intror H)).
Qed.

Lemma check_messages_error_head (rt : runtime) (i : nat) (l : list value)
    (e : exn) :
  check_messages rt i l = inl e ->
  (forall doc, e <> JSONDecodeError doc) /\
  (text_starts rt e 77 \/ text_starts rt e 117 \/ text_starts rt e 39).
Proof.
  revert i. induction l as [|v l IH]; intros i; cbn [check_messages];
    [discriminate|].
  destruct (check_message rt i v) as [e'|[]] eqn:Hv; cbn [bind].
  - intros H. injection H as <-. exact (check_message_error_head rt i v e' Hv).
  - apply IH.
Qed.

Lemma parse_body_list (rt : runtime) (s : pystr) (l : list value) :
  loads s = Some (VList l) ->
  parse_body rt s
  = match check_messages rt 0 l with inl e => inl e | inr _ => inr l end.
Proof.
  intros H. unfold parse_body. rewrite H.
  destruct (check_messages rt 0 l); reflexivity.
Qed.

(** Fail-fast on a text: the exception of the first rejected element is the
    one the handlers see, whatever follows that element. *)
Lemma parse_fail_fast (rt : runtime) (s : pystr) (pre post : list value)
    (bad : value) (e : exn) :
  forallb isspace s = false ->
  loads s = Some (VList (pre ++ bad :: post)) ->
  forallb valid_message pre = true ->
  check_message rt (length pre) bad = inl e ->
  _parse_chat_history rt s
  = inl (ValueError (u "Error parsing chat_history: " ++ str_exn rt e)).
Proof.
  intros Hs Hl Hpre Hbad. rewrite (parse_nonblank rt s Hs).
  rewrite (parse_body_list rt s _ Hl).
  rewrite (check_messages_first_invalid rt 0 pre post bad e Hpre Hbad).
  destruct (check_message_error_head rt _ _ _ Hbad) as [Hd _].
  destruct e; try reflexivity. now destruct (Hd doc).
Qed.

(** The example of the fail-fast rule: the second element is rejected, the
    error names index 1 and the role [bogus]. *)
Lemma parse_bogus_role (rt : runtime) :
  _parse_chat_history rt
    (js "[{'role':'user','content':'hi'}, {'role':'bogus','content':'x'}]")
  = inl (ValueError
           (u "Error parsing chat_history: Message 1 has invalid role: bogus. Must be one of "
              ++ valid_roles_repr rt)).
Proof. reflexivity. Qed.

(** C4 (failing input). When the role of the first rejected element is a
    JSON array, the membership test raises [TypeError] and the handler
    reports it without the index: the same error is reported whether the
    element sits at index 0 or at index 1. *)
Theorem unhashable_role_error_lacks_index (rt : runtime) :
  _parse_chat_history rt (js "[{'role': [], 'content': 'x'}]")
  = inl (ValueError (u "Error parsing chat_history: unhashable type: 'list'"))
  /\ _parse_chat_history rt
       (js "[{'role': 'user', 'content': 'hi'}, {'role': [], 'content': 'x'}]")
     = inl (ValueError (u "Error parsing chat_history: unhashable type: 'list'")).
Proof. split; reflexivity. Qed.

(** C5 (as amended). An element at index [i] that is a key-value record
    without [role] or without [content], all elements before it being valid,
    makes [_parse_chat_history] fail with an error that names the index [i]
    and says that both fields are required; the text is the same whichever
    field is missing. *)
Theorem missing_field_error (rt : runtime) (s : pystr) (pre post : list value)
    (d : list (pystr * value)) :
  forallb isspace s = false ->
  loads s = Some (VList (pre ++ VDict d :: post)) ->
  forallb valid_message pre = true ->
  dict_has d (u "role") = false \/ dict_has d (u "content") = false ->
  _parse_chat_history rt s
  = inl (ValueError
           (u "Error parsing chat_history: Message " ++ nat_repr (length pre)
              ++ u " must have 'role' and 'content' fields")).
Proof.
  intros Hs Hl Hpre Hd.
  rewrite (parse_fail_fast rt s pre post (VDict d)
             (ValueError (msg_missing_fields (length pre))) Hs Hl Hpre).
  - reflexivity.
  - rewrite check_message_dict. now destruct Hd as [-> | ->];
      rewrite ?orb_true_r.
Qed.

Lemma missing_field_error_witness :
  _parse_chat_history plain_runtime (js "[{'role':'user'}]")
  = inl (ValueError
           (u "Error parsing chat_history: Message 0 must have 'role' and 'content' fields")).
Proof.
  apply (missing_field_error plain_runtime (js "[{'role':'user'}]") [] []
           [(u "role", VStr (u "user"))]);
    [reflexivity | reflexivity | reflexivity | right; reflexivity].
Defined.

(** C5 (counterexample). A record without [content] and a record without
    [role] are rejected with the very same error: the error does not tell
    which field is missing. *)
Lemma missing_field_not_named :
  _parse_chat_history plain_runtime (js "[{'role':'user'}]")
  = inl (ValueError
           (u "Error parsing chat_history: Message 0 must have 'role' and 'content' fields"))
  /\ _parse_chat_history plain_runtime (js "[{'content':'hi'}]")
     = _parse_chat_history plain_runtime (js "[{'role':'user'}]").
Proof. split; reflexivity. Qed.

(** C6. [_parse_chat_history] returns the empty transcript, not an error,
    for the empty string and for every string of white space only. The
    outcome differs from that of a malformed text that is not blank: such a
    text raises [ValueError], and a text that is not blank yields the empty
    transcript only when it is the JSON text of an empty array. *)
Theorem blank_history_is_empty (rt : runtime) (s : pystr) :
  forallb isspace s = true ->
  _parse_chat_history rt s = inr []
  /\ _parse_chat_history rt [] = inr []
  /\ (forall s', forallb isspace s' = false -> loads s' = None ->
        exists msg, _parse_chat_history rt s' = inl (ValueError msg))
  /\ (forall s', forallb isspace s' = false ->
        _parse_chat_history rt s' = inr [] -> loads s' = Some (VList [])).
Proof.
  intros Hs. repeat split.
  - unfold _parse_chat_history. now rewrite (parse_guard_blank s Hs).
  - intros s' Hs' Hl. rewrite (parse_nonblank rt s' Hs').
    unfold parse_body. rewrite Hl. eauto.
  - intros s' Hs'. rewrite (parse_nonblank rt s' Hs'). unfold parse_body.
    destruct (loads s') as [v|]; [|discriminate].
    destruct v; try discriminate.
    destruct (check_messages rt 0 l) as [e|[]]; cbn [bind].
    + destruct e; discriminate.
    + intros H. injection H as ->. reflexivity.
Qed.

Lemma blank_history_is_empty_witness :
  _parse_chat_history plain_runtime (u "   ") = inr [].
Proof.
  apply (blank_history_is_empty plain_runtime (u "   ")). reflexivity.
Defined.

(** C7. A text that is not blank and is not valid JSON makes
    [_parse_chat_history] fail with the invalid-JSON error, and a text whose
    top-level value is not an array makes it fail with the must-be-an-array
    error; neither error is ever raised for an element of an array, so the
    malformed-input errors are distinct from the per-element ones. *)
Theorem malformed_input_error (rt : runtime) (s : pystr) :
  forallb isspace s = false ->
  (loads s = None ->
     _parse_chat_history rt s
     = inl (ValueError (u "Invalid JSON in chat_history: "
                          ++ decode_error_text rt s)))
  /\ (forall v, loads s = Some v -> (forall l, v <> VList l) ->
        _parse_chat_history rt s
        = inl (ValueError
                 (u "Error parsing chat_history: Chat history must be a JSON array")))
  /\ (forall l e, loads s = Some (VList l) ->
        _parse_chat_history rt s = inl e ->
        (forall detail,
            e <> ValueError (u "Invalid JSON in chat_history: " ++ detail))
        /\ e <> ValueError
                  (u "Error parsing chat_history: Chat history must be a JSON array")).
Proof.
  intros Hs. rewrite (parse_nonblank rt s Hs). split; [|split].
  - intros Hl. unfold parse_body. now rewrite Hl.
  - intros v Hl Hv. unfold parse_body. rewrite Hl.
    destruct v; try reflexivity. now destruct (Hv l).
  - intros l e Hl. rewrite (parse_body_list rt s l Hl).
    destruct (check_messages rt 0 l) as [e0|[]] eqn:Hc; [|discriminate].
    destruct (check_messages_error_head rt 0 l e0 Hc) as [Hd Hh].
    intros He.
    assert (He' : e = ValueError (u "Error parsing chat_history: "
                                    ++ str_exn rt e0)).
    { destruct e0; try (now destruct (Hd doc)); now injection He as <-. }
    subst e. clear He. split.
    + intros detail. discriminate.
    + intros Heq.
      change (u "Error parsing chat_history: Chat history must be a JSON array")
        with (u "Error parsing chat_history: "
                ++ u "Chat history must be a JSON array") in Heq.
      assert (Heq' : str_exn rt e0 = u "Chat history must be a JSON array")
        by (apply (app_inv_head (u "Error parsing chat_history: "));
            congruence).
      destruct Hh as [[t Ht] | [[t Ht] | [t Ht]]]; rewrite Ht in Heq';
        discriminate.
Qed.

Lemma malformed_input_error_witness :
  _parse_chat_history plain_runtime (u "not json")
  = inl (ValueError
           (u "Invalid JSON in chat_history: Expecting value: line 1 column 1 (char 0)")).
Proof.
  apply (malformed_input_error plain_runtime (u "not json")); reflexivity.
Defined.

(** C8. For every valid transcript [T] -- every element a key-value record
    with a [content] field and a [role] among the three valid ones --
    parsing the serialization of [T] yields [T] itself: same length, same
    order, same fields. Contents are texts in the data model; the statement
    covers every content in which no float occurs. *)
Theorem parse_dumps_roundtrip (rt : runtime) (T : list value) :
  forallb valid_message T = true ->
  no_float (VList T) = true ->
  keys_distinct (VList T) = true ->
  _parse_chat_history rt (dumps rt false (VList T)) = inr T.
Proof.
  intros Hvalid Hnf Hkd.
  assert (Hs : forallb isspace (dumps rt false (VList T)) = false)
    by (destruct T; reflexivity).
  rewrite (parse_nonblank rt _ Hs).
  rewrite (parse_body_list rt _ T (loads_dumps rt (VList T) Hnf Hkd)).
  now rewrite (check_messages_valid rt 0 T Hvalid).
Qed.

Lemma parse_dumps_roundtrip_witness :
  let T := [VDict [(u "role", VStr (u "system"));
                   (u "content", VStr (u "You are helpful"))];
            user_hi;
            VDict [(u "role", VStr (u "assistant"));
                   (u "content", VStr (js "Hi 'there'!"))]] in
  _parse_chat_history plain_runtime (dumps plain_runtime false (VList T)) = inr T.
Proof.
  intros T. apply (parse_dumps_roundtrip plain_runtime T); reflexivity.
Defined.

(** C10. An array whose elements are key-value records with a valid [role]
    and a [content] key is accepted whatever the contents are -- [null], a
    number or a nested structure ([valid_message] does not look at the value
    of [content]) -- and is returned as it was loaded; a later merge
    serializes these very elements before the new assistant message. *)
Theorem content_type_unchecked (rt : runtime) (s : pystr) (l : list value) :
  forallb isspace s = false ->
  loads s = Some (VList l) ->
  forallb valid_message l = true ->
  _parse_chat_history rt s = inr l
  /\ forall c : value,
       fst (_format_chat_history_output rt (reply c) 0%nat {[ 0%nat := l ]})
       = dumps rt false (VList (l ++ [assistant_message c])).
Proof.
  intros Hs Hl Hvalid. split.
  - rewrite (parse_nonblank rt s Hs), (parse_body_list rt s l Hl).
    now rewrite (check_messages_valid rt 0 l Hvalid).
  - intros c. unfold _format_chat_history_output, format_body, list_copy.
    cbn [reply choices message content fst]. unfold list_append, read.
    rewrite lookup_insert_eq. cbn [default]. rewrite lookup_insert_eq.
    cbn [default]. rewrite lookup_singleton_eq. reflexivity.
Qed.

Lemma content_type_unchecked_witness :
  _parse_chat_history plain_runtime
    (js "[{'role':'user','content':null},{'role':'user','content':42},{'role':'assistant','content':{'a':[1,2.5]}}]")
  = inr [VDict [(u "role", VStr (u "user")); (u "content", VNone)];
         VDict [(u "role", VStr (u "user")); (u "content", VInt 42)];
         VDict [(u "role", VStr (u "assistant"));
                (u "content",
                 VDict [(u "a", VList [VInt 1;
                                       VFloat (FloatLit (u "2") (u ".5") [])])])]].
Proof.
  apply (content_type_unchecked plain_runtime
           (js "[{'role':'user','content':null},{'role':'user','content':42},{'role':'assistant','content':{'a':[1,2.5]}}]"));
    reflexivity.
Defined.

(** ** [_format_chat_history_output] *)

Lemma copy_is_new (h : heap) (history : loc) (msgs : list value) :
  h !! history = Some msgs -> fresh (dom h) <> history.
Proof.
  intros H Heq. apply (is_fresh (dom h)). rewrite Heq.
  apply elem_of_dom. eauto.
Qed.

(** C1. For every history of length N held by the list object [history] and
    every response whose first choice has a message with a content,
    [_format_chat_history_output] returns the serialization of a transcript
    of length N+1 whose first N elements are those of the history, in order,
    and whose last element is the message with role [assistant] and the
    content of the first choice; the list object [history] is left as it
    was. *)
Theorem format_appends_assistant (rt : runtime) (response : Response)
    (choice : Choice) (others : list Choice) (m : Message) (c : value)
    (h : heap) (history : loc) (msgs : list value) :
  h !! history = Some msgs ->
  choices response = Some (choice :: others) ->
  message choice = Some m ->
  content m = Some c ->
  exists updated : list value,
    fst (_format_chat_history_output rt response history h)
    = dumps rt false (VList updated)
    /\ length updated = S (length msgs)
    /\ take (length msgs) updated = msgs
    /\ updated !! length msgs
       = Some (VDict [(u "role", VStr (u "assistant")); (u "content", c)])
    /\ snd (_format_chat_history_output rt response history h) !! history
       = Some msgs.
Proof.
  intros Hh Hc Hm Hcontent. exists (msgs ++ [assistant_message c]).
  pose proof (copy_is_new h history msgs Hh) as Hnew.
  unfold _format_chat_history_output, format_body, list_copy.
  rewrite Hc, Hm, Hcontent. cbn [fst snd]. unfold list_append, read.
  rewrite Hh, !lookup_insert_eq. cbn [default]. repeat split.
  - rewrite length_app. cbn [length]. lia.
  - apply take_app_length.
  - now apply list_lookup_middle.
  - now rewrite !lookup_insert_ne.
Qed.

Lemma format_appends_assistant_witness :
  exists updated : list value,
    fst (_format_chat_history_output plain_runtime (reply (VStr (u "Hi there!")))
           0%nat {[ 0%nat := [user_hi] ]})
    = dumps plain_runtime false (VList updated)
    /\ length updated = 2%nat
    /\ take 1 updated = [user_hi]
    /\ updated !! 1%nat
       = Some (VDict [(u "role", VStr (u "assistant"));
                      (u "content", VStr (u "Hi there!"))])
    /\ snd (_format_chat_history_output plain_runtime (reply (VStr (u "Hi there!")))
              0%nat {[ 0%nat := [user_hi] ]}) !! 0%nat
       = Some [user_hi].
Proof.
  apply (format_appends_assistant plain_runtime (reply (VStr (u "Hi there!")))
           {| message := Some {| content := Some (VStr (u "Hi there!")) |} |}
           [] {| content := Some (VStr (u "Hi there!")) |}
           (VStr (u "Hi there!")) {[ 0%nat := [user_hi] ]} 0%nat [user_hi]);
    reflexivity.
Defined.

(** Without a content to append, the output is the serialization of the
    history as it was given. *)
Lemma format_without_content (rt : runtime) (response : Response) (h : heap)
    (history : loc) (msgs : list value) :
  lacks_content response = true ->
  h !! history = Some msgs ->
  fst (_format_chat_history_output rt response history h)
  = dumps rt false (VList msgs)
  /\ snd (_format_chat_history_output rt response history h) !! history
     = Some msgs.
Proof.
  intros Hlack Hh. pose proof (copy_is_new h history msgs Hh) as Hnew.
  unfold _format_chat_history_output, format_body, list_copy, lacks_content in *.
  destruct response as [[[|[[[[c|]]|]] others]|]];
    cbn [choices message content] in *; try discriminate;
    cbn [fst snd]; unfold read;
    rewrite ?lookup_insert_eq, ?lookup_insert_ne, ?Hh by exact Hnew;
    split; reflexivity.
Qed.

(** ** [execute_llama_chat] *)

Section NodeFacts.
Variables tensor image client : Type.
Variable open_comfy_image : tensor -> exn + image.
Variable LlamaLiteClient : pystr -> exn + client.
Variable chat : client -> chat_params image -> exn + Response.
Variable rt : runtime.
Variable clients : gmap (list N) client.
Variables server_url prompt : pystr.
Variables system_prompt chat_history : option pystr.
Variables image1 image2 image3 image4 image5 : option tensor.

Local Abbreviation body :=
  (execute_body tensor image client open_comfy_image LlamaLiteClient chat rt
     clients server_url prompt system_prompt chat_history
     image1 image2 image3 image4 image5).
Local Abbreviation returned :=
  (execute_llama_chat tensor image client open_comfy_image LlamaLiteClient
     chat rt clients server_url prompt system_prompt chat_history
     image1 image2 image3 image4 image5).
Local Abbreviation inputs_accepted :=
  (accepted tensor image client open_comfy_image LlamaLiteClient rt clients
     server_url prompt chat_history [image1; image2; image3; image4; image5]).
Local Abbreviation sent := (request image prompt system_prompt).
Local Abbreviation images_decoded :=
  (process_images tensor image open_comfy_image
     [image1; image2; image3; image4; image5]).

Lemma execute_body_accepted (images : list image) (llm : client)
    (parsed : list value) :
  inputs_accepted images llm parsed ->
  fst body = call_and_merge image client chat rt llm (sent images parsed).
Proof.
  intros (Hi & Hu & Hp & Hc & Hh). unfold execute_body.
  rewrite Hi, Hu, Hp. cbn [negb].
  destruct (_get_client client LlamaLiteClient clients (strip server_url))
    as [got clients'].
  cbn [fst] in *. rewrite Hc. cbn [bind]. rewrite Hh. reflexivity.
Qed.

(** Validation failures: a blank URL, a blank prompt, a rejected history. *)
Lemma execute_body_blank_url (images : list image) :
  images_decoded = inr images ->
  nonblank (Some server_url) = false ->
  fst body = inl (ValueError (u "server_url cannot be empty")).
Proof.
  intros Hi Hu. unfold execute_body. now rewrite Hi, Hu.
Qed.

Lemma execute_body_blank_prompt (images : list image) :
  images_decoded = inr images ->
  nonblank (Some server_url) = true ->
  nonblank (Some prompt) = false ->
  fst body = inl (ValueError (u "prompt cannot be empty")).
Proof.
  intros Hi Hu Hp. unfold execute_body. now rewrite Hi, Hu, Hp.
Qed.

Lemma execute_body_rejected_history (images : list image) (llm : client)
    (e : exn) :
  images_decoded = inr images ->
  nonblank (Some server_url) = true ->
  nonblank (Some prompt) = true ->
  fst (_get_client client LlamaLiteClient clients (strip server_url))
  = inr llm ->
  parse_history rt chat_history = inl e ->
  fst body = inl e.
Proof.
  intros Hi Hu Hp Hc Hh. unfold execute_body. rewrite Hi, Hu, Hp. cbn [negb].
  destruct (_get_client client LlamaLiteClient clients (strip server_url))
    as [got clients'].
  cbn [fst] in *. rewrite Hc. cbn [bind]. now rewrite Hh.
Qed.

(** Transport failures. *)
Lemma execute_body_transport (images : list image) (llm : client)
    (parsed : list value) (e : exn) :
  inputs_accepted images llm parsed ->
  chat llm (sent images parsed) = inl e ->
  fst body = inl e.
Proof.
  intros Ha Hc. rewrite (execute_body_accepted images llm parsed Ha).
  unfold call_and_merge. now rewrite Hc.
Qed.

(** Response-shape failures. *)
Lemma execute_body_malformed (images : list image) (llm : client)
    (parsed : list value) (response : Response) :
  inputs_accepted images llm parsed ->
  chat llm (sent images parsed) = inr response ->
  lacks_content response = true ->
  exists msg,
    fst body = inl (ValueError msg)
    /\ (msg = u "Invalid response from server: no choices found"
        \/ msg = u "Invalid response from server: no message content found").
Proof.
  intros Ha Hc Hl. rewrite (execute_body_accepted images llm parsed Ha).
  unfold call_and_merge. rewrite Hc. cbn [bind]. unfold lacks_content in Hl.
  destruct (choices response) as [[|choice others]|]; eauto.
  destruct (message choice) as [[[c|]]|]; [discriminate | eauto | eauto].
Qed.

Lemma returned_of_body :
  fst returned
  = match fst body with
    | inr result => result
    | inl e => error_result rt e
    end.
Proof.
  unfold execute_llama_chat. destruct body as [[e|result] clients'];
    reflexivity.
Qed.

(** C2 (as amended). Whenever the [try] block of [execute_llama_chat]
    raises an exception [e] -- a validation, transport or response-shape
    failure -- the node returns the pair made of the text of [e] prefixed
    with [Error: ] and of the serialization of a one-element transcript
    holding a system-role note with the text of [e]; this holds whether or
    not a usable prior history was given. *)
Theorem execute_failure_pair (e : exn) :
  fst body = inl e ->
  fst returned
  = (VStr (u "Error: " ++ str_exn rt e),
     dumps rt true
       (VList [VDict [(u "role", VStr (u "system"));
                      (u "content",
                       VStr (u "Error occurred: " ++ str_exn rt e))]])).
Proof.
  intros H. rewrite returned_of_body, H. reflexivity.
Qed.

(** C3. For every history and every response without a non-empty list of
    choices, or whose first choice has no message or no content, the merge
    returns the serialization of the history unchanged and leaves the list
    object as it was, and the node, once the transport has answered with
    such a response, returns the error pair of the invalid-response error;
    no assistant message is appended in either case. *)
Theorem malformed_response_not_merged (response : Response) (h : heap)
    (history : loc) (msgs : list value) (images : list image) (llm : client)
    (parsed : list value) :
  lacks_content response = true ->
  h !! history = Some msgs ->
  inputs_accepted images llm parsed ->
  chat llm (sent images parsed) = inr response ->
  (fst (_format_chat_history_output rt response history h)
   = dumps rt false (VList msgs)
   /\ snd (_format_chat_history_output rt response history h) !! history
      = Some msgs)
  /\ exists msg,
       fst returned = error_result rt (ValueError msg)
       /\ (msg = u "Invalid response from server: no choices found"
           \/ msg = u "Invalid response from server: no message content found").
Proof.
  intros Hl Hh Ha Hc. split.
  - exact (format_without_content rt response h history msgs Hl Hh).
  - destruct (execute_body_malformed images llm parsed response Ha Hc Hl)
      as (msg & Hbody & Hmsg).
    exists msg. split; [|exact Hmsg].
    rewrite returned_of_body, Hbody. reflexivity.
Qed.
End NodeFacts.


Lemma execute_failure_pair_witness :
  node (inl (OtherException (u "Connection refused"))) plain_runtime localhost
    (u "Hello") None (Some history_text)
  = (VStr (u "Error: Connection refused"),
     js "[
  {
    'role': 'system',
    'content': 'Error occurred: Connection refused'
  }
]").
Proof.
  apply (execute_failure_pair unit unit unit (fun _ => inr tt)
           (fun _ => inr tt)
           (fun _ _ => inl (OtherException (u "Connection refused")))
           plain_runtime ∅ localhost (u "Hello") None (Some history_text)
           None None None None None (OtherException (u "Connection refused"))).
  reflexivity.
Defined.

(** C2 (counterexample). A usable prior history is given and the transport
    answers without choices: the history returned is the one-element system
    note, not the prior history. *)
Lemma error_history_ignores_prior_history :
  _parse_chat_history plain_runtime history_text = inr [user_hi]
  /\ snd (node (inr no_choices) plain_runtime localhost (u "Hello") None
            (Some history_text))
     = dumps plain_runtime true
         (VList [VDict [(u "role", VStr (u "system"));
                        (u "content",
                         VStr (u "Error occurred: Invalid response from server: no choices found"))]])
  /\ snd (node (inr no_choices) plain_runtime localhost (u "Hello") None
            (Some history_text))
     <> history_text
  /\ snd (node (inr no_choices) plain_runtime localhost (u "Hello") None
            (Some history_text))
     <> dumps plain_runtime false (VList [user_hi]).
Proof. repeat split; try reflexivity; discriminate. Qed.

Lemma malformed_response_not_merged_witness :
  (fst (_format_chat_history_output plain_runtime no_choices 0%nat
          {[ 0%nat := [user_hi] ]})
   = dumps plain_runtime false (VList [user_hi])
   /\ snd (_format_chat_history_output plain_runtime no_choices 0%nat
             {[ 0%nat := [user_hi] ]}) !! 0%nat
      = Some [user_hi])
  /\ exists msg,
       node (inr no_choices) plain_runtime localhost (u "Hello") None
         (Some history_text)
       = error_result plain_runtime (ValueError msg)
       /\ (msg = u "Invalid response from server: no choices found"
           \/ msg = u "Invalid response from server: no message content found").
Proof.
  apply (malformed_response_not_merged unit unit unit (fun _ => inr tt)
           (fun _ => inr tt) (fun _ _ => inr no_choices) plain_runtime ∅
           localhost (u "Hello") None (Some history_text)
           None None None None None no_choices
           {[ 0%nat := [user_hi] ]} 0%nat [user_hi] [] tt [user_hi]);
    [reflexivity | reflexivity | repeat split; reflexivity | reflexivity].
Defined.

(** C9 (as amended). In the end-to-end scenario -- this URL, the prompt
    [Hello], the chat history [[]] and a response with one choice whose
    content is [Hi there!] -- the node returns [Hi there!] and the
    serialization, indented by two spaces, of the one-element transcript
    holding the assistant message; that text parses back to this
    transcript. *)
Theorem end_to_end_scenario (rt : runtime) (system_prompt : option pystr) :
  node (inr (reply (VStr (u "Hi there!")))) rt localhost (u "Hello")
    system_prompt (Some (u "[]"))
  = (VStr (u "Hi there!"),
     js "[
  {
    'role': 'assistant',
    'content': 'Hi there!'
  }
]")
  /\ loads (snd (node (inr (reply (VStr (u "Hi there!")))) rt localhost
                   (u "Hello") system_prompt (Some (u "[]"))))
     = Some (VList [VDict [(u "role", VStr (u "assistant"));
                           (u "content", VStr (u "Hi there!"))]]).
Proof. split; reflexivity. Qed.

(** C9 (counterexample). The history returned in the scenario is not the
    one-line text of the claim. *)
Lemma end_to_end_text_is_indented :
  node (inr (reply (VStr (u "Hi there!")))) plain_runtime localhost (u "Hello")
    None (Some (u "[]"))
  <> (VStr (u "Hi there!"),
      js "[{'role': 'assistant', 'content': 'Hi there!'}]").
Proof. discriminate. Qed.

(** * Further properties of the node *)

(** ** [_parse_chat_history]: what is accepted and what is raised *)

Lemma check_message_accepts (rt : runtime) (i : nat) (v : value) :
  check_message rt i v = inr tt -> valid_message v = true.
Proof.
  destruct v as [| | | | | |d]; try discriminate.
  rewrite check_message_dict. cbn [valid_message].
  destruct (dict_has d (u "role")); [|discriminate].
  destruct (dict_has d (u "content")); [|discriminate]. cbn [negb orb andb].
  destruct (dict_get d (u "role")) as [role|]; [|discriminate].
  destruct role; cbn [hash_value]; try discriminate.
  now destruct (existsb (pystr_eqb s) valid_roles).
Qed.

Lemma check_messages_accepts (rt : runtime) (i : nat) (l : list value) :
  check_messages rt i l = inr tt -> forallb valid_message l = true.
Proof.
  revert i. induction l as [|v l IH]; intros i; [reflexivity|].
  cbn [check_messages forallb].
  destruct (check_message rt i v) as [e|[]] eqn:Hv; [discriminate|].
  cbn [bind]. intros H. rewrite (check_message_accepts rt i v Hv).
  exact (IH (S i) H).
Qed.

(** X1. Whatever the text, [_parse_chat_history] raises nothing but a
    [ValueError], whose message starts with one of the two prefixes of the
    handlers: neither the [JSONDecodeError] of the decoder nor the
    [TypeError] of the membership test leaves the function. *)
Theorem parse_raises_value_error_only (rt : runtime) (s : pystr) (e : exn) :
  _parse_chat_history rt s = inl e ->
  exists detail,
    e = ValueError (u "Invalid JSON in chat_history: " ++ detail)
    \/ e = ValueError (u "Error parsing chat_history: " ++ detail).
Proof.
  unfold _parse_chat_history.
  destruct (negb (truthy s) || pystr_eqb (strip s) []); [discriminate|].
  destruct (parse_body rt s) as [e0|l]; [|discriminate].
  destruct e0; intros H; injection H as <-; eauto.
Qed.

Lemma parse_raises_value_error_only_witness :
  exists detail,
    ValueError (u "Error parsing chat_history: Chat history must be a JSON array")
    = ValueError (u "Invalid JSON in chat_history: " ++ detail)
    \/ ValueError (u "Error parsing chat_history: Chat history must be a JSON array")
       = ValueError (u "Error parsing chat_history: " ++ detail).
Proof.
  apply (parse_raises_value_error_only plain_runtime (js "{'role': 'user'}")).
  reflexivity.
Defined.



(** X3. When the first rejected element, at index [i], is not a key-value
    record, the error says that message [i] must be a dictionary. *)
Theorem non_record_element_error (rt : runtime) (s : pystr)
    (pre post : list value) (bad : value) :
  forallb isspace s = false ->
  loads s = Some (VList (pre ++ bad :: post)) ->
  forallb valid_message pre = true ->
  (forall d, bad <> VDict d) ->
  _parse_chat_history rt s
  = inl (ValueError
           (u "Error parsing chat_history: Message " ++ nat_repr (length pre)
              ++ u " must be a dictionary")).
Proof.
  intros Hs Hl Hpre Hbad.
  rewrite (parse_fail_fast rt s pre post bad
             (ValueError (msg_not_dict (length pre))) Hs Hl Hpre).
  - reflexivity.
  - destruct bad; try reflexivity. now destruct (Hbad d).
Qed.

Lemma non_record_element_error_witness :
  _parse_chat_history plain_runtime
    (js "[{'role': 'user', 'content': 'hi'}, 7, {'role': 'x'}]")
  = inl (ValueError
           (u "Error parsing chat_history: Message 1 must be a dictionary")).
Proof.
  apply (non_record_element_error plain_runtime
           (js "[{'role': 'user', 'content': 'hi'}, 7, {'role': 'x'}]")
           [user_hi] [VDict [(u "role", VStr (u "x"))]] (VInt 7));
    [reflexivity | reflexivity | reflexivity | discriminate].
Defined.

(** X4. When the first rejected element, at index [i], is a record with
    both fields whose role can be hashed but is not one of the three valid
    strings -- another string, a number, a boolean or [null] -- the error
    names the index [i], prints the role and lists the valid roles. *)
Theorem invalid_role_error (rt : runtime) (s : pystr) (pre post : list value)
    (d : list (pystr * value)) (role : value) (h : hashable) :
  forallb isspace s = false ->
  loads s = Some (VList (pre ++ VDict d :: post)) ->
  forallb valid_message pre = true ->
  dict_has d (u "content") = true ->
  dict_get d (u "role") = Some role ->
  hash_value role = inr h ->
  (forall r, h = HStr r -> existsb (pystr_eqb r) valid_roles = false) ->
  _parse_chat_history rt s
  = inl (ValueError
           (u "Error parsing chat_history: Message " ++ nat_repr (length pre)
              ++ u " has invalid role: " ++ str_hashable rt h
              ++ u ". Must be one of " ++ valid_roles_repr rt)).
Proof.
  intros Hs Hl Hpre Hc Hr Hh Hbad.
  rewrite (parse_fail_fast rt s pre post (VDict d)
             (ValueError (msg_invalid_role rt (length pre) h)) Hs Hl Hpre).
  - reflexivity.
  - rewrite check_message_dict. unfold dict_has at 1. rewrite Hr, Hc, Hh.
    cbn [negb orb]. destruct h; try reflexivity.
    now rewrite (Hbad s0 eq_refl).
Qed.

Lemma invalid_role_error_witness :
  _parse_chat_history plain_runtime (js "[{'role': 3, 'content': 'x'}]")
  = inl (ValueError
           (u "Error parsing chat_history: Message 0 has invalid role: 3. Must be one of {'system', 'user', 'assistant'}")).
Proof.
  apply (invalid_role_error plain_runtime (js "[{'role': 3, 'content': 'x'}]")
           [] [] [(u "role", VInt 3); (u "content", VStr (u "x"))]
           (VInt 3) (HInt 3));
    [reflexivity | reflexivity | reflexivity | reflexivity | reflexivity
    | reflexivity | discriminate].
Defined.

(** X5. Validation stops at the first rejected element: two arrays that
    agree up to and including that element are rejected with the same
    error, whatever follows it. *)
Theorem parse_ignores_what_follows (rt : runtime) (s s' : pystr)
    (pre post post' : list value) (bad : value) :
  forallb isspace s = false ->
  forallb isspace s' = false ->
  loads s = Some (VList (pre ++ bad :: post)) ->
  loads s' = Some (VList (pre ++ bad :: post')) ->
  forallb valid_message pre = true ->
  valid_message bad = false ->
  _parse_chat_history rt s = _parse_chat_history rt s'
  /\ exists msg, _parse_chat_history rt s = inl (ValueError msg).
Proof.
  intros Hs Hs' Hl Hl' Hpre Hbad.
  destruct (check_message rt (length pre) bad) as [e|[]] eqn:Hc.
  - rewrite (parse_fail_fast rt s pre post bad e Hs Hl Hpre Hc).
    rewrite (parse_fail_fast rt s' pre post' bad e Hs' Hl' Hpre Hc). eauto.
  - apply check_message_accepts in Hc. congruence.
Qed.

Lemma parse_ignores_what_follows_witness :
  _parse_chat_history plain_runtime (js "[{'role': 'bogus', 'content': 'x'}, 7]")
  = _parse_chat_history plain_runtime
      (js "[{'role': 'bogus', 'content': 'x'}, {'role': 'user', 'content': 'y'}]")
  /\ exists msg,
       _parse_chat_history plain_runtime
         (js "[{'role': 'bogus', 'content': 'x'}, 7]")
       = inl (ValueError msg).
Proof.
  apply (parse_ignores_what_follows plain_runtime
           (js "[{'role': 'bogus', 'content': 'x'}, 7]")
           (js "[{'role': 'bogus', 'content': 'x'}, {'role': 'user', 'content': 'y'}]")
           [] [VInt 7]
           [VDict [(u "role", VStr (u "user")); (u "content", VStr (u "y"))]]
           (VDict [(u "role", VStr (u "bogus")); (u "content", VStr (u "x"))]));
    reflexivity.
Defined.

(** X6. The check of one message looks at two things only, the value under
    [role] and the presence of [content]: two records that agree on these
    are both accepted or both rejected with the same exception, whatever
    their other keys and whatever the value of [content]. *)
Theorem check_message_reads_role_and_content (rt : runtime) (i : nat)
    (d d' : list (pystr * value)) :
  dict_get d (u "role") = dict_get d' (u "role") ->
  dict_has d (u "content") = dict_has d' (u "content") ->
  check_message rt i (VDict d) = check_message rt i (VDict d').
Proof.
  intros Hr Hc. rewrite !check_message_dict. unfold dict_has at 1 3.
  now rewrite Hr, Hc.
Qed.

Lemma check_message_reads_role_and_content_witness :
  check_message plain_runtime 0
    (VDict [(u "role", VStr (u "user")); (u "content", VStr (u "hi"))])
  = check_message plain_runtime 0
      (VDict [(u "name", VStr (u "Ann")); (u "content", VList [VNone]);
              (u "role", VStr (u "user"))]).
Proof.
  apply (check_message_reads_role_and_content plain_runtime 0
           [(u "role", VStr (u "user")); (u "content", VStr (u "hi"))]
           [(u "name", VStr (u "Ann")); (u "content", VList [VNone]);
            (u "role", VStr (u "user"))]);
    reflexivity.
Defined.

(** ** [_format_chat_history_output]: the store and the next call *)

Lemma format_with_content (rt : runtime) (response : Response)
    (choice : Choice) (others : list Choice) (m : Message) (c : value)
    (h : heap) (history : loc) (msgs : list value) :
  h !! history = Some msgs ->
  choices response = Some (choice :: others) ->
  message choice = Some m ->
  content m = Some c ->
  _format_chat_history_output rt response history h
  = (dumps rt false (VList (msgs ++ [assistant_message c])),
     <[fresh (dom h) := msgs ++ [assistant_message c]]>
       (<[fresh (dom h) := msgs]> h)).
Proof.
  intros Hh Hc Hm Hcontent.
  unfold _format_chat_history_output, format_body, list_copy.
  rewrite Hc, Hm, Hcontent. unfold list_append, read.
  rewrite Hh, !lookup_insert_eq. reflexivity.
Qed.

(** X7. The output of a merge is a valid input of the next call: for a
    history of valid messages and a response whose first choice has a
    content (no float occurring in either), parsing the text returned by
    [_format_chat_history_output] gives the history followed by the
    assistant message. *)
Theorem merged_history_parses_back (rt : runtime) (response : Response)
    (choice : Choice) (others : list Choice) (m : Message) (c : value)
    (h : heap) (history : loc) (msgs : list value) :
  h !! history = Some msgs ->
  choices response = Some (choice :: others) ->
  message choice = Some m ->
  content m = Some c ->
  forallb valid_message msgs = true ->
  no_float (VList msgs) = true -> keys_distinct (VList msgs) = true ->
  no_float c = true -> keys_distinct c = true ->
  _parse_chat_history rt
    (fst (_format_chat_history_output rt response history h))
  = inr (msgs ++ [VDict [(u "role", VStr (u "assistant")); (u "content", c)]]).
Proof.
  intros Hh Hc Hm Hcontent Hvalid Hnf Hkd Hnfc Hkdc.
  rewrite (format_with_content rt response choice others m c h history msgs
             Hh Hc Hm Hcontent).
  cbn [fst]. set (T := msgs ++ [assistant_message c]).
  assert (Hs : forallb isspace (dumps rt false (VList T)) = false)
    by (destruct T; reflexivity).
  assert (HT : forallb valid_message T = true).
  { unfold T. rewrite forallb_app, Hvalid. reflexivity. }
  assert (HnfT : no_float (VList T) = true).
  { cbn [no_float] in *. unfold T. rewrite forallb_app, Hnf.
    cbn [forallb assistant_message no_float snd]. now rewrite Hnfc. }
  assert (HkdT : keys_distinct (VList T) = true).
  { cbn [keys_distinct] in *. unfold T. rewrite forallb_app, Hkd.
    cbn [forallb assistant_message keys_distinct snd andb]. rewrite Hkdc.
    reflexivity. }
  rewrite (parse_nonblank rt _ Hs).
  rewrite (parse_body_list rt _ T (loads_dumps rt (VList T) HnfT HkdT)).
  now rewrite (check_messages_valid rt 0 T HT).
Qed.

Lemma merged_history_parses_back_witness :
  _parse_chat_history plain_runtime
    (fst (_format_chat_history_output plain_runtime
            (reply (VStr (u "Hi there!"))) 0%nat {[ 0%nat := [user_hi] ]}))
  = inr [user_hi;
         VDict [(u "role", VStr (u "assistant"));
                (u "content", VStr (u "Hi there!"))]].
Proof.
  apply (merged_history_parses_back plain_runtime
           (reply (VStr (u "Hi there!")))
           {| message := Some {| content := Some (VStr (u "Hi there!")) |} |}
           [] {| content := Some (VStr (u "Hi there!")) |}
           (VStr (u "Hi there!")) {[ 0%nat := [user_hi] ]} 0%nat [user_hi]);
    reflexivity.
Defined.

(** X8. Whatever the response, [_format_chat_history_output] changes no
    list object that exists when it is called: it allocates one new list
    object, the copy, and every location of the store it was given still
    holds the same list afterwards. *)
Theorem format_preserves_store (rt : runtime) (response : Response)
    (h : heap) (history : loc) (msgs : list value) :
  h !! history = Some msgs ->
  (forall (l : loc) (v : list value),
      h !! l = Some v ->
      snd (_format_chat_history_output rt response history h) !! l = Some v)
  /\ dom (snd (_format_chat_history_output rt response history h))
     = dom h ∪ {[ fresh (dom h) ]}.
Proof.
  intros Hh.
  assert (Hnew : forall l v, h !! l = Some v -> fresh (dom h) <> l)
    by (intros l v Hl; exact (copy_is_new h l v Hl)).
  unfold _format_chat_history_output, format_body, list_copy, list_append.
  destruct response as [[[|[[[[c|]]|]] others]|]];
    cbn [choices message content fst snd]; split;
    try (intros l v Hl; rewrite ?lookup_insert_ne by exact (Hnew l v Hl);
         exact Hl);
    rewrite ?dom_insert_L; apply set_eq; intros x;
    rewrite ?elem_of_union; tauto.
Qed.

Lemma format_preserves_store_witness :
  (forall (l : loc) (v : list value),
      ({[ 0%nat := [user_hi] ]} : heap) !! l = Some v ->
      snd (_format_chat_history_output plain_runtime
             (reply (VStr (u "Hi there!"))) 0%nat {[ 0%nat := [user_hi] ]}) !! l
      = Some v)
  /\ dom (snd (_format_chat_history_output plain_runtime
                 (reply (VStr (u "Hi there!"))) 0%nat
                 {[ 0%nat := [user_hi] ]}))
     = dom ({[ 0%nat := [user_hi] ]} : heap)
       ∪ {[ fresh (dom ({[ 0%nat := [user_hi] ]} : heap)) ]}.
Proof.
  apply (format_preserves_store plain_runtime (reply (VStr (u "Hi there!")))
           {[ 0%nat := [user_hi] ]} 0%nat [user_hi]).
  reflexivity.
Defined.

(** X9. Only the first choice of the response is merged: two responses
    with the same first choice give the same text and the same store,
    whatever their other choices. *)
Theorem format_reads_first_choice (rt : runtime) (response response' : Response)
    (choice : Choice) (others others' : list Choice) (h : heap)
    (history : loc) :
  choices response = Some (choice :: others) ->
  choices response' = Some (choice :: others') ->
  _format_chat_history_output rt response history h
  = _format_chat_history_output rt response' history h.
Proof.
  intros Hc Hc'. unfold _format_chat_history_output, format_body.
  now rewrite Hc, Hc'.
Qed.

Lemma format_reads_first_choice_witness :
  _format_chat_history_output plain_runtime
    {| choices :=
         Some [ {| message := Some {| content := Some (VStr (u "one")) |} |};
                {| message := Some {| content := Some (VStr (u "two")) |} |} ] |}
    0%nat {[ 0%nat := [user_hi] ]}
  = _format_chat_history_output plain_runtime (reply (VStr (u "one")))
      0%nat {[ 0%nat := [user_hi] ]}.
Proof.
  apply (format_reads_first_choice plain_runtime _ _
           {| message := Some {| content := Some (VStr (u "one")) |} |}
           [ {| message := Some {| content := Some (VStr (u "two")) |} |} ] []);
    reflexivity.
Defined.

(** ** [str.strip]: stripping twice is stripping once *)

Lemma lstrip_snoc (s : pystr) (c : N) :
  isspace c = false -> lstrip (s ++ [c]) = lstrip s ++ [c].
Proof.
  intros Hc. induction s as [|a s IH]; cbn [app lstrip].
  - now rewrite Hc.
  - destruct (isspace a); [exact IH | reflexivity].
Qed.

Lemma rstrip_cons (c : N) (s : pystr) :
  isspace c = false -> rstrip (c :: s) = c :: rstrip s.
Proof.
  intros Hc. unfold rstrip. cbn [rev].
  rewrite (lstrip_snoc (rev s) c Hc), rev_app_distr. reflexivity.
Qed.

Lemma strip_idempotent (s : pystr) : strip (strip s) = strip s.
Proof.
  unfold strip. destruct (lstrip s) as [|c t] eqn:Hl; [reflexivity|].
  pose proof (lstrip_head s c t Hl) as Hc.
  rewrite (rstrip_cons c t Hc). cbn [lstrip]. rewrite Hc.
  rewrite (rstrip_cons c (rstrip t) Hc). f_equal.
  unfold rstrip. rewrite rev_involutive.
  destruct (lstrip_suffix (rev t)) as [p Hp].
  destruct (lstrip (rev t)) as [|a r] eqn:Hr; [reflexivity|].
  cbn [lstrip]. now rewrite (lstrip_head (rev t) a r Hr).
Qed.

Lemma strip_nil : strip [] = [].
Proof. reflexivity. Qed.

Lemma nonblank_strip (s : pystr) :
  nonblank (Some (strip s)) = nonblank (Some s).
Proof.
  unfold nonblank. rewrite strip_idempotent.
  destruct s as [|c s]; [reflexivity|]. cbn [truthy andb].
  now destruct (truthy (strip (c :: s))).
Qed.

Lemma nonblank_blank (s : pystr) :
  forallb isspace s = true -> nonblank (Some s) = false.
Proof.
  intros H. apply strip_nil_iff in H. unfold nonblank. rewrite H.
  apply andb_false_r.
Qed.

(** ** [_get_client] and [execute_llama_chat] *)

Section NodeRuns.
Variables tensor image client : Type.
Variable open_comfy_image : tensor -> exn + image.
Variable LlamaLiteClient : pystr -> exn + client.
Variable chat : client -> chat_params image -> exn + Response.
Variable rt : runtime.
Variable clients : gmap (list N) client.
Variables image1 image2 image3 image4 image5 : option tensor.

Local Abbreviation run server_url prompt system_prompt chat_history :=
  (execute_llama_chat tensor image client open_comfy_image LlamaLiteClient
     chat rt clients server_url prompt system_prompt chat_history
     image1 image2 image3 image4 image5).
Local Abbreviation try_block server_url prompt system_prompt chat_history :=
  (execute_body tensor image client open_comfy_image LlamaLiteClient
     chat rt clients server_url prompt system_prompt chat_history
     image1 image2 image3 image4 image5).
Local Abbreviation images_decoded :=
  (process_images tensor image open_comfy_image
     [image1; image2; image3; image4; image5]).
Local Abbreviation get_client :=
  (_get_client client LlamaLiteClient).

Lemma run_of_try_block (server_url prompt : pystr)
    (system_prompt chat_history : option pystr) :
  run server_url prompt system_prompt chat_history
  = (match fst (try_block server_url prompt system_prompt chat_history) with
     | inr result => result
     | inl e => error_result rt e
     end,
     snd (try_block server_url prompt system_prompt chat_history)).
Proof.
  unfold execute_llama_chat.
  destruct (try_block server_url prompt system_prompt chat_history)
    as [[e|result] clients']; reflexivity.
Qed.

Lemma try_block_accepted (server_url prompt : pystr)
    (system_prompt chat_history : option pystr) (images : list image)
    (llm : client) (parsed : list value) :
  accepted tensor image client open_comfy_image LlamaLiteClient rt clients
    server_url prompt chat_history [image1; image2; image3; image4; image5]
    images llm parsed ->
  fst (try_block server_url prompt system_prompt chat_history)
  = call_and_merge image client chat rt llm
      (request image prompt system_prompt images parsed).
Proof.
  intros (Hi & Hu & Hp & Hc & Hh). unfold execute_body.
  rewrite Hi, Hu, Hp. cbn [negb].
  destruct (get_client clients (strip server_url)) as [got clients'].
  cbn [fst] in *. rewrite Hc. cbn [bind]. rewrite Hh. reflexivity.
Qed.

(** X10. A successful exchange: when the inputs are accepted and the
    first choice of the response has a content that has a length (a string,
    in practice), the node returns that content unchanged and the
    serialization of the parsed history followed by the assistant message.
    The prompt of the user is not part of the history returned. *)
Theorem execute_success (server_url prompt : pystr)
    (system_prompt chat_history : option pystr) (images : list image)
    (llm : client) (parsed : list value) (response : Response)
    (choice : Choice) (others : list Choice) (m : Message) (c : value)
    (n : nat) :
  accepted tensor image client open_comfy_image LlamaLiteClient rt clients
    server_url prompt chat_history [image1; image2; image3; image4; image5]
    images llm parsed ->
  chat llm (request image prompt system_prompt images parsed) = inr response ->
  choices response = Some (choice :: others) ->
  message choice = Some m ->
  content m = Some c ->
  len c = inr n ->
  fst (run server_url prompt system_prompt chat_history)
  = (c, dumps rt false
          (VList (parsed ++ [VDict [(u "role", VStr (u "assistant"));
                                    (u "content", c)]]))).
Proof.
  intros Ha Hc Hch Hm Hcontent Hlen. rewrite run_of_try_block. cbn [fst].
  rewrite (try_block_accepted _ _ _ _ images llm parsed Ha).
  unfold call_and_merge. rewrite Hc. cbn [bind]. rewrite Hch, Hm.
  destruct m as [mc]. cbn [content] in Hcontent. subst mc.
  rewrite Hlen. cbn [bind cp_chat_history request].
  rewrite (format_with_content rt response choice others
             {| content := Some c |} c _ 0%nat parsed
             (lookup_singleton_eq _ _) Hch Hm eq_refl).
  reflexivity.
Qed.

(** X11. A content without a length: when the inputs are accepted and the
    content of the first choice is [None], a number or a boolean, the call
    of [len] in the log line raises [TypeError] and the node returns the
    error pair of that exception, although the merge could have serialized
    such a content. *)
Theorem execute_content_without_len (server_url prompt : pystr)
    (system_prompt chat_history : option pystr) (images : list image)
    (llm : client) (parsed : list value) (response : Response)
    (choice : Choice) (others : list Choice) (m : Message) (c : value)
    (e : exn) :
  accepted tensor image client open_comfy_image LlamaLiteClient rt clients
    server_url prompt chat_history [image1; image2; image3; image4; image5]
    images llm parsed ->
  chat llm (request image prompt system_prompt images parsed) = inr response ->
  choices response = Some (choice :: others) ->
  message choice = Some m ->
  content m = Some c ->
  len c = inl e ->
  fst (run server_url prompt system_prompt chat_history) = error_result rt e
  /\ exists kind,
       e = TypeError (u "object of type '" ++ kind ++ u "' has no len()").
Proof.
  intros Ha Hc Hch Hm Hcontent Hlen. split.
  - rewrite run_of_try_block. cbn [fst].
    rewrite (try_block_accepted _ _ _ _ images llm parsed Ha).
    unfold call_and_merge. rewrite Hc. cbn [bind]. rewrite Hch, Hm.
    destruct m as [mc]. cbn [content] in Hcontent. subst mc.
    now rewrite Hlen.
  - destruct c; cbn [len] in Hlen; try discriminate; injection Hlen as <-;
      [exists (u "NoneType") | exists (u "bool") | exists (u "int")
      | exists (u "float")]; reflexivity.
Qed.

(** X12. Validation comes before any use of the transport: with images
    that decode and a blank URL or a blank prompt, the node returns the
    error pair of the validation error and leaves the cache of clients as
    it was, whatever the constructor and the method [chat] of the client
    would do. *)
Theorem execute_blank_input (server_url prompt : pystr)
    (system_prompt chat_history : option pystr) (images : list image) :
  images_decoded = inr images ->
  nonblank (Some server_url) = false \/ nonblank (Some prompt) = false ->
  exists msg,
    run server_url prompt system_prompt chat_history
    = (error_result rt (ValueError msg), clients)
    /\ (msg = u "server_url cannot be empty"
        \/ msg = u "prompt cannot be empty").
Proof.
  intros Hi Hb. unfold execute_llama_chat, execute_body. rewrite Hi.
  destruct (nonblank (Some server_url)) eqn:Hu; cbn [negb].
  - destruct Hb as [Hb | Hb]; [discriminate|]. rewrite Hb. cbn [negb]. eauto.
  - eauto.
Qed.

(** The images are decoded first: when the decoding of an image
    raises [e], the node returns the error pair of [e] and leaves the cache
    as it was, even if the URL or the prompt is blank. *)
Theorem execute_image_failure (server_url prompt : pystr)
    (system_prompt chat_history : option pystr) (e : exn) :
  images_decoded = inl e ->
  run server_url prompt system_prompt chat_history
  = (error_result rt e, clients).
Proof.
  intros Hi. unfold execute_llama_chat, execute_body. now rewrite Hi.
Qed.

(** X13. [_get_client] creates a client once: when the URL is not cached
    and the constructor succeeds, the client is returned and stored under
    the URL, the other entries are untouched, and a second call returns the
    same client and the same cache without the constructor, whatever the
    constructor would then answer. *)
Theorem get_client_caches (server_url : pystr) (c : client) :
  clients !! server_url = None ->
  LlamaLiteClient server_url = inr c ->
  fst (get_client clients server_url) = inr c
  /\ snd (get_client clients server_url) !! server_url = Some c
  /\ (forall other, other <> server_url ->
        snd (get_client clients server_url) !! other = clients !! other)
  /\ forall constructor : pystr -> exn + client,
       _get_client client constructor
         (snd (get_client clients server_url)) server_url
       = (inr c, snd (get_client clients server_url)).
Proof.
  intros Hmiss Hnew. unfold _get_client. rewrite Hmiss, Hnew. cbn [fst snd].
  repeat split.
  - apply lookup_insert_eq.
  - intros other Hne. now apply lookup_insert_ne.
  - intros constructor. now rewrite lookup_insert_eq.
Qed.

(** X14. A failed construction is not cached: when the URL is not cached
    and the constructor raises [e], the cache is returned as it was, so the
    next call tries the constructor again; the node then returns the error
    pair of [e] without parsing the history or calling the transport. *)
Theorem execute_client_failure (server_url prompt : pystr)
    (system_prompt chat_history : option pystr) (images : list image)
    (e : exn) :
  images_decoded = inr images ->
  nonblank (Some server_url) = true ->
  nonblank (Some prompt) = true ->
  clients !! strip server_url = None ->
  LlamaLiteClient (strip server_url) = inl e ->
  get_client clients (strip server_url) = (inl e, clients)
  /\ run server_url prompt system_prompt chat_history
     = (error_result rt e, clients).
Proof.
  intros Hi Hu Hp Hmiss Hfail.
  assert (Hget : get_client clients (strip server_url) = (inl e, clients))
    by (unfold _get_client; now rewrite Hmiss, Hfail).
  split; [exact Hget|].
  unfold execute_llama_chat, execute_body. rewrite Hi, Hu, Hp. cbn [negb].
  now rewrite Hget.
Qed.

(** X15. The node only ever adds to its cache of clients, and only under
    the stripped URL of the call: after any call, every other URL is
    cached exactly as before, and a client cached under the stripped URL
    is still there. *)
Theorem execute_keeps_cache (server_url prompt : pystr)
    (system_prompt chat_history : option pystr) :
  (forall other, other <> strip server_url ->
     snd (run server_url prompt system_prompt chat_history) !! other
     = clients !! other)
  /\ forall c, clients !! strip server_url = Some c ->
       snd (run server_url prompt system_prompt chat_history)
         !! strip server_url = Some c.
Proof.
  rewrite run_of_try_block. cbn [snd]. unfold execute_body.
  destruct images_decoded as [e|images]; [now split|].
  destruct (negb (nonblank (Some server_url))); [now split|].
  destruct (negb (nonblank (Some prompt))); [now split|].
  unfold _get_client.
  destruct (clients !! strip server_url) as [c0|] eqn:Hc; cbn [snd].
  { split; [reflexivity | intros c <-; exact Hc]. }
  destruct (LlamaLiteClient (strip server_url)) as [e|c1]; cbn [snd].
  { split; [reflexivity | discriminate]. }
  split; [intros other Hne; now apply lookup_insert_ne | discriminate].
Qed.

(** X16. A blank optional input is an absent one: a [chat_history] or a
    [system_prompt] that is empty or holds white space only gives the same
    result as [None], and so does the chat history [[]]. *)
Theorem execute_blank_optional (server_url prompt : pystr)
    (system_prompt chat_history : option pystr) (blank : pystr) :
  forallb isspace blank = true ->
  run server_url prompt system_prompt (Some blank)
  = run server_url prompt system_prompt None
  /\ run server_url prompt system_prompt (Some (u "[]"))
     = run server_url prompt system_prompt None
  /\ run server_url prompt (Some blank) chat_history
     = run server_url prompt None chat_history.
Proof.
  intros Hb. pose proof (nonblank_blank blank Hb) as Hn.
  unfold execute_llama_chat, execute_body, parse_history, request.
  rewrite Hn. repeat split.
Qed.

(** X17. White space around the inputs is insignificant: the node gives
    the same result on the URL, the prompt, the system prompt and the chat
    history as on their stripped forms. *)
Theorem execute_strips_inputs (server_url prompt : pystr)
    (system_prompt chat_history : option pystr) :
  run (strip server_url) (strip prompt) (strip <$> system_prompt)
    (strip <$> chat_history)
  = run server_url prompt system_prompt chat_history.
Proof.
  assert (Hopt : forall o : option pystr, nonblank (strip <$> o) = nonblank o)
    by (intros [s|]; [apply nonblank_strip | reflexivity]).
  assert (Hdef : forall o : option pystr,
            strip (default [] (strip <$> o)) = strip (default [] o))
    by (intros [s|]; [apply strip_idempotent | reflexivity]).
  unfold execute_llama_chat, execute_body, parse_history, request.
  rewrite !nonblank_strip, !Hopt, !Hdef, !strip_idempotent. reflexivity.
Qed.
End NodeRuns.

Lemma execute_success_witness :
  node (inr (reply (VStr (u "Hi there!")))) plain_runtime localhost
    (u "  Hello ") None (Some history_text)
  = (VStr (u "Hi there!"),
     dumps plain_runtime false
       (VList ([user_hi]
               ++ [VDict [(u "role", VStr (u "assistant"));
                          (u "content", VStr (u "Hi there!"))]]))).
Proof.
  apply (execute_success unit unit unit (fun _ => inr tt) (fun _ => inr tt)
           (fun _ _ => inr (reply (VStr (u "Hi there!")))) plain_runtime ∅
           None None None None None localhost (u "  Hello ") None
           (Some history_text) [] tt [user_hi] (reply (VStr (u "Hi there!")))
           {| message := Some {| content := Some (VStr (u "Hi there!")) |} |}
           [] {| content := Some (VStr (u "Hi there!")) |}
           (VStr (u "Hi there!")) 9%nat);
    [repeat split; reflexivity | reflexivity | reflexivity | reflexivity
    | reflexivity | reflexivity].
Defined.

Lemma execute_content_without_len_witness :
  node (inr (reply VNone)) plain_runtime localhost (u "Hello") None
    (Some history_text)
  = error_result plain_runtime
      (TypeError (u "object of type 'NoneType' has no len()"))
  /\ exists kind,
       TypeError (u "object of type 'NoneType' has no len()")
       = TypeError (u "object of type '" ++ kind ++ u "' has no len()").
Proof.
  apply (execute_content_without_len unit unit unit (fun _ => inr tt)
           (fun _ => inr tt) (fun _ _ => inr (reply VNone)) plain_runtime ∅
           None None None None None localhost (u "Hello") None
           (Some history_text) [] tt [user_hi] (reply VNone)
           {| message := Some {| content := Some VNone |} |}
           [] {| content := Some VNone |} VNone
           (TypeError (u "object of type 'NoneType' has no len()")));
    [repeat split; reflexivity | reflexivity | reflexivity | reflexivity
    | reflexivity | reflexivity].
Defined.

Lemma execute_blank_input_witness :
  exists msg,
    execute_llama_chat unit unit unit (fun _ => inr tt) (fun _ => inr tt)
      (fun _ _ => inr (reply (VStr (u "Hi there!")))) plain_runtime ∅
      (u "   ") (u "Hello") None None None None None None None
    = (error_result plain_runtime (ValueError msg), ∅)
    /\ (msg = u "server_url cannot be empty"
        \/ msg = u "prompt cannot be empty").
Proof.
  apply (execute_blank_input unit unit unit (fun _ => inr tt)
           (fun _ => inr tt) (fun _ _ => inr (reply (VStr (u "Hi there!"))))
           plain_runtime ∅ None None None None None (u "   ") (u "Hello")
           None None []);
    [reflexivity | left; reflexivity].
Defined.

Lemma execute_image_failure_witness :
  execute_llama_chat unit unit unit
    (fun _ => inl (OtherException (u "bad tensor"))) (fun _ => inr tt)
    (fun _ _ => inr (reply (VStr (u "Hi there!")))) plain_runtime ∅
    [] (u "Hello") None None None (Some tt) None None None
  = (error_result plain_runtime (OtherException (u "bad tensor")), ∅).
Proof.
  apply (execute_image_failure unit unit unit
           (fun _ => inl (OtherException (u "bad tensor"))) (fun _ => inr tt)
           (fun _ _ => inr (reply (VStr (u "Hi there!")))) plain_runtime ∅
           None (Some tt) None None None [] (u "Hello") None None
           (OtherException (u "bad tensor")));
    reflexivity.
Defined.

Lemma get_client_caches_witness :
  fst (_get_client unit (fun _ => inr tt) ∅ localhost) = inr tt
  /\ snd (_get_client unit (fun _ => inr tt) ∅ localhost) !! localhost
     = Some tt
  /\ (forall other, other <> localhost ->
        snd (_get_client unit (fun _ => inr tt) ∅ localhost) !! other
        = (∅ : gmap (list N) unit) !! other)
  /\ forall constructor : list N -> exn + unit,
       _get_client unit constructor
         (snd (_get_client unit (fun _ => inr tt) ∅ localhost)) localhost
       = (inr tt, snd (_get_client unit (fun _ => inr tt) ∅ localhost)).
Proof.
  apply (get_client_caches unit (fun _ => inr tt) ∅ localhost tt);
    reflexivity.
Defined.

Lemma execute_client_failure_witness :
  _get_client unit (fun _ => inl (OtherException (u "no route"))) ∅
    (strip localhost)
  = (inl (OtherException (u "no route")), ∅)
  /\ execute_llama_chat unit unit unit (fun _ => inr tt)
       (fun _ => inl (OtherException (u "no route")))
       (fun _ _ => inr (reply (VStr (u "Hi there!")))) plain_runtime ∅
       localhost (u "Hello") None (Some (u "not json"))
       None None None None None
     = (error_result plain_runtime (OtherException (u "no route")), ∅).
Proof.
  apply (execute_client_failure unit unit unit (fun _ => inr tt)
           (fun _ => inl (OtherException (u "no route")))
           (fun _ _ => inr (reply (VStr (u "Hi there!")))) plain_runtime ∅
           None None None None None localhost (u "Hello") None
           (Some (u "not json")) [] (OtherException (u "no route")));
    reflexivity.
Defined.

Lemma execute_blank_optional_witness :
  node (inr (reply (VStr (u "Hi there!")))) plain_runtime localhost
    (u "Hello") None (Some (u "  "))
  = node (inr (reply (VStr (u "Hi there!")))) plain_runtime localhost
      (u "Hello") None None.
Proof.
  exact (f_equal fst
           (proj1 (execute_blank_optional unit unit unit (fun _ => inr tt)
                     (fun _ => inr tt)
                     (fun _ _ => inr (reply (VStr (u "Hi there!"))))
                     plain_runtime ∅ None None None None None localhost
                     (u "Hello") None None (u "  ") eq_refl))).
Defined.

(** ** The error history is a valid chat history *)

Lemma hexval_hexdigit (d : N) : d < 16 -> hexval (hexdigit d) = Some d.
Proof.
  intros H. assert (Hin : In d (List.map N.of_nat (seq 0 16))).
  { apply in_map_iff. exists (N.to_nat d). split; [lia|]. apply in_seq. lia. }
  simpl in Hin. repeat (destruct Hin as [<-|Hin]; [reflexivity|]).
  destruct Hin.
Qed.

Lemma hex_digits_sum (n : N) :
  n < 0x10000 ->
  ((n / 4096 mod 16 * 16 + n / 256 mod 16) * 16 + n / 16 mod 16) * 16
  + n mod 16 = n.
Proof.
  intros H.
  pose proof (N.div_mod n 16 ltac:(discriminate)) as H0.
  pose proof (N.div_mod (n / 16) 16 ltac:(discriminate)) as H1.
  pose proof (N.div_mod (n / 256) 16 ltac:(discriminate)) as H2.
  replace (n / 16 / 16) with (n / 256) in H1
    by (rewrite N.Div0.div_div; reflexivity).
  replace (n / 256 / 16) with (n / 4096) in H2
    by (rewrite N.Div0.div_div; reflexivity).
  assert (H3 : n / 4096 < 16) by (apply N.Div0.div_lt_upper_bound; lia).
  rewrite (N.mod_small (n / 4096) 16 H3). lia.
Qed.

Lemma decode_hex4 (n : N) (h1 h2 h3 h4 : N) :
  n < 0x10000 -> hex4 n = [h1; h2; h3; h4] ->
  decode_uXXXX h1 h2 h3 h4 = Some n.
Proof.
  intros H Hh. unfold hex4 in Hh. injection Hh as <- <- <- <-.
  unfold decode_uXXXX.
  rewrite !hexval_hexdigit by (apply N.mod_lt; discriminate).
  now rewrite hex_digits_sum.
Qed.

Lemma scanstring_u4 (h1 h2 h3 h4 uni : N) (s : pystr) :
  decode_uXXXX h1 h2 h3 h4 = Some uni ->
  (0xd800 <=? uni) && (uni <=? 0xdbff) = false ->
  scanstring (92 :: 117 :: h1 :: h2 :: h3 :: h4 :: s) = push uni (scanstring s).
Proof.
  intros Hd Hs. cbn [scanstring N.eqb Pos.eqb]. rewrite Hd, Hs. reflexivity.
Qed.

Lemma scanstring_pair (h1 h2 h3 h4 l1 l2 l3 l4 uni uni2 : N) (s : pystr) :
  decode_uXXXX h1 h2 h3 h4 = Some uni ->
  (0xd800 <=? uni) && (uni <=? 0xdbff) = true ->
  decode_uXXXX l1 l2 l3 l4 = Some uni2 ->
  (0xdc00 <=? uni2) && (uni2 <=? 0xdfff) = true ->
  scanstring (92 :: 117 :: h1 :: h2 :: h3 :: h4
                :: 92 :: 117 :: l1 :: l2 :: l3 :: l4 :: s)
  = push (0x10000 + N.lor (N.shiftl (uni - 0xd800) 10) (uni2 - 0xdc00))
      (scanstring s).
Proof.
  intros Hd Hs Hd2 Hs2. cbn [scanstring N.eqb Pos.eqb andb].
  rewrite Hd, Hs, Hd2, Hs2. reflexivity.
Qed.

Lemma land_shift_low (a b k : N) : b < 2 ^ k -> N.land (a * 2 ^ k) b = 0.
Proof.
  intros Hb. apply N.bits_inj. intros i. rewrite N.land_spec, N.bits_0.
  destruct (N.lt_ge_cases i k) as [Hi | Hi].
  - rewrite N.mul_pow2_bits_low by exact Hi. reflexivity.
  - destruct (N.eq_dec b 0) as [-> | Hb0];
      [now rewrite N.bits_0, andb_false_r|].
    rewrite (N.bits_above_log2 b i), andb_false_r; [reflexivity|].
    apply N.log2_lt_pow2; [lia|].
    apply N.lt_le_trans with (2 ^ k); [exact Hb|].
    apply N.pow_le_mono_r; [discriminate | exact Hi].
Qed.

Lemma lor_shift_low (a b k : N) :
  b < 2 ^ k -> N.lor (a * 2 ^ k) b = a * 2 ^ k + b.
Proof.
  intros Hb. pose proof (land_shift_low a b k Hb) as H.
  now rewrite (N.add_nocarry_lxor _ _ H), (N.lxor_lor _ _ H).
Qed.

Lemma surrogates_of (c : N) :
  0x10000 <= c -> c < 0x110000 ->
  let n := c - 0x10000 in
  N.lor 0xd800 (N.land (N.shiftr n 10) 0x3ff) = 0xd800 + n / 1024
  /\ N.lor 0xdc00 (N.land n 0x3ff) = 0xdc00 + n mod 1024
  /\ n / 1024 < 1024
  /\ n mod 1024 < 1024
  /\ 0x10000 + N.lor (N.shiftl (n / 1024) 10) (n mod 1024) = c.
Proof.
  intros Hlo Hhi n.
  assert (Hn : n < 1024 * 1024) by (unfold n; lia).
  assert (Hq : n / 1024 < 1024) by (apply N.Div0.div_lt_upper_bound; lia).
  assert (Hr : n mod 1024 < 1024) by (apply N.mod_lt; discriminate).
  change 0x3ff with (N.ones 10). rewrite !N.land_ones, N.shiftr_div_pow2.
  change (2 ^ 10) with 1024. rewrite (N.mod_small _ _ Hq).
  change 0xd800 with (54 * 2 ^ 10). change 0xdc00 with (55 * 2 ^ 10).
  rewrite N.shiftl_mul_pow2.
  rewrite !lor_shift_low by (change (2 ^ 10) with 1024; assumption).
  change (2 ^ 10) with 1024. repeat split; try assumption.
  pose proof (N.div_mod n 1024 ltac:(discriminate)). unfold n in *. lia.
Qed.

Lemma scanstring_escape_char_ascii (c : N) (s : pystr) :
  scalar c = true ->
  scanstring (escape_char true c ++ s) = push c (scanstring s).
Proof.
  intros Hc. destruct (escape_dct c) as [e|] eqn:Hd.
  - rewrite <- (scanstring_escape_char c s). unfold escape_char.
    now rewrite Hd.
  - unfold escape_char. rewrite Hd. unfold escape_dct in Hd.
    destruct (c =? 92) eqn:E1; [discriminate|].
    destruct (c =? 34) eqn:E2; [discriminate|].
    destruct (c =? 8); [discriminate|]. destruct (c =? 12); [discriminate|].
    destruct (c =? 10); [discriminate|]. destruct (c =? 13); [discriminate|].
    destruct (c =? 9); [discriminate|].
    destruct (c <? 32) eqn:E8; [discriminate|]. clear Hd.
    unfold scalar in Hc. apply andb_prop in Hc as [Hmax Hsur].
    apply N.ltb_lt in Hmax. apply negb_true_iff in Hsur.
    destruct ((32 <=? c) && (c <=? 126)); cbn [andb negb app].
    + now apply scanstring_plain.
    + destruct (c <? 0x10000) eqn:Hbmp.
      * apply N.ltb_lt in Hbmp. cbn [app].
        apply scanstring_u4; [now apply decode_hex4|].
        destruct (0xd800 <=? c) eqn:Hlo; [|reflexivity].
        cbn [andb] in *. apply N.leb_le in Hlo.
        apply N.leb_gt in Hsur. apply N.leb_gt. lia.
      * apply N.ltb_ge in Hbmp.
        destruct (surrogates_of c Hbmp Hmax) as (H1 & H2 & Hq & Hr & Hback).
        cbv zeta in H1, H2, Hq, Hr, Hback. rewrite H1, H2.
        clear H1 H2. rewrite N.shiftl_mul_pow2 in Hback.
        remember ((c - 0x10000) / 1024) as q eqn:Eq.
        remember ((c - 0x10000) mod 1024) as r eqn:Er. clear Eq Er.
        cbn [app hex4].
        rewrite (scanstring_pair _ _ _ _ _ _ _ _ (0xd800 + q) (0xdc00 + r)).
        -- assert (Hsub : forall a b : N, a + b - a = b) by (intros; lia).
           now rewrite !Hsub, N.shiftl_mul_pow2, Hback.
        -- apply decode_hex4; [lia | reflexivity].
        -- apply andb_true_intro. split; apply N.leb_le; lia.
        -- apply decode_hex4; [lia | reflexivity].
        -- apply andb_true_intro. split; apply N.leb_le; lia.
Qed.

Lemma scanstring_encode_ascii (s rest : pystr) :
  forallb scalar s = true ->
  scanstring (flat_map (escape_char true) s ++ 34 :: rest) = Some (s, rest).
Proof.
  induction s as [|c s IH]; cbn [flat_map app forallb]; intros H.
  - apply scanstring_quote.
  - apply andb_prop in H as [Hc Hs].
    rewrite <- app_assoc, (scanstring_escape_char_ascii c _ Hc), (IH Hs).
    reflexivity.
Qed.

Lemma dumps_system_note (rt : runtime) (text : pystr) :
  dumps rt true (VList [system_note text])
  = note_head ++ flat_map (escape_char true) text ++ note_tail.
Proof.
  unfold dumps, system_note. cbn [iterencode List.map join fst snd].
  change (encode_basestring true text)
    with (34 :: flat_map (escape_char true) text ++ [34]).
  repeat first [rewrite <- app_assoc | rewrite <- app_comm_cons].
  reflexivity.
Qed.

Lemma scan_system_note (text : pystr) (fuel : nat) :
  forallb scalar text = true ->
  scan_once (S (S (S (S fuel))))
    (note_head ++ flat_map (escape_char true) text ++ note_tail)
  = Some (VList [system_note text], []).
Proof.
  intros Hs. unfold note_head, note_tail.
  cbn [app scan_once N.eqb Pos.eqb JSONArray skip_ws is_ws orb array_loop
       JSONObject object_loop scanstring N.ltb N.compare Pos.compare
       Pos.compare_cont push andb backslash].
  rewrite (scanstring_encode_ascii text _ Hs).
  reflexivity.
Qed.

Lemma loads_system_note (rt : runtime) (text : pystr) :
  forallb scalar text = true ->
  loads (dumps rt true (VList [system_note text]))
  = Some (VList [system_note text]).
Proof.
  intros Hs. rewrite dumps_system_note. unfold loads.
  change (startswith_bom
            (note_head ++ flat_map (escape_char true) text ++ note_tail))
    with false.
  change (skip_ws (note_head ++ flat_map (escape_char true) text ++ note_tail))
    with (note_head ++ flat_map (escape_char true) text ++ note_tail).
  assert (Hlen : exists fuel,
            length (note_head ++ flat_map (escape_char true) text ++ note_tail)
            = S (S (S fuel))) by (eexists; reflexivity).
  destruct Hlen as [fuel ->]. now rewrite (scan_system_note text fuel Hs).
Qed.

Section NodeErrors.
Variables tensor image client : Type.
Variable open_comfy_image : tensor -> exn + image.
Variable LlamaLiteClient : pystr -> exn + client.
Variable chat : client -> chat_params image -> exn + Response.
Variable rt : runtime.
Variable clients : gmap (list N) client.
Variables server_url prompt : pystr.
Variables system_prompt chat_history : option pystr.
Variables image1 image2 image3 image4 image5 : option tensor.

(** X18. The history returned on a failure can be given back as
    [chat_history]: whenever the [try] block raises an exception whose
    text holds no surrogate code point, the error history parses to the
    transcript of one valid message, the system note with that text. *)
Theorem error_history_parses_back (e : exn) :
  fst (execute_body tensor image client open_comfy_image LlamaLiteClient
         chat rt clients server_url prompt system_prompt chat_history
         image1 image2 image3 image4 image5) = inl e ->
  forallb scalar (str_exn rt e) = true ->
  _parse_chat_history rt
    (snd (fst (execute_llama_chat tensor image client open_comfy_image
                 LlamaLiteClient chat rt clients server_url prompt
                 system_prompt chat_history image1 image2 image3 image4
                 image5)))
  = inr [VDict [(u "role", VStr (u "system"));
                (u "content", VStr (u "Error occurred: " ++ str_exn rt e))]].
Proof.
  intros Hbody Hscalar.
  rewrite (returned_of_body tensor image client open_comfy_image
             LlamaLiteClient chat rt clients server_url prompt system_prompt
             chat_history image1 image2 image3 image4 image5), Hbody.
  unfold error_result. cbn [snd].
  change (VDict [(u "role", VStr (u "system"));
                 (u "content", VStr (u "Error occurred: " ++ str_exn rt e))])
    with (system_note (u "Error occurred: " ++ str_exn rt e)).
  set (text := u "Error occurred: " ++ str_exn rt e).
  assert (Htext : forallb scalar text = true)
    by (unfold text; rewrite forallb_app, Hscalar; reflexivity).
  assert (Hs : forallb isspace (dumps rt true (VList [system_note text]))
               = false)
    by (rewrite dumps_system_note; reflexivity).
  rewrite (parse_nonblank rt _ Hs).
  rewrite (parse_body_list rt _ _ (loads_system_note rt text Htext)).
  reflexivity.
Qed.
End NodeErrors.

Lemma error_history_parses_back_witness :
  _parse_chat_history plain_runtime
    (snd (node (inr no_choices) plain_runtime localhost (u "Hello") None
            (Some history_text)))
  = inr [VDict [(u "role", VStr (u "system"));
                (u "content",
                 VStr (u "Error occurred: Invalid response from server: no choices found"))]].
Proof.
  apply (error_history_parses_back unit unit unit (fun _ => inr tt)
           (fun _ => inr tt) (fun _ _ => inr no_choices) plain_runtime ∅
           localhost (u "Hello") None (Some history_text)
           None None None None None
           (ValueError (u "Invalid response from server: no choices found")));
    reflexivity.
Defined.

(** ** The images are decoded in the order of the slots *)

(** X19. Empty slots are skipped and the order of the slots is kept: when
    every image given decodes, [process_images] returns the decoded images
    of the slots that are filled, in the order of the slots. *)
Theorem process_images_in_order (tensor image : Type)
    (open_comfy_image : tensor -> exn + image) (decode : tensor -> image)
    (slots : list (option tensor)) :
  (forall t, In (Some t) slots -> open_comfy_image t = inr (decode t)) ->
  process_images tensor image open_comfy_image slots
  = inr (List.map decode (omap id slots)).
Proof.
  induction slots as [|[t|] slots IH]; intros H; cbn [process_images omap].
  - reflexivity.
  - rewrite (H t (or_introl eq_refl)). cbn [bind].
    rewrite IH by (intros t' Ht'; apply H; now right). reflexivity.
  - apply IH. intros t' Ht'. apply H. now right.
Qed.

Lemma process_images_in_order_witness :
  process_images nat nat (fun t => inr (t + 1)%nat) [None; Some 5%nat; None; Some 2%nat; None]
  = inr (List.map (fun t => (t + 1)%nat) (omap id [None; Some 5%nat; None; Some 2%nat; None])).
Proof.
  apply (process_images_in_order nat nat (fun t => inr (t + 1)%nat)
           (fun t => (t + 1)%nat) [None; Some 5%nat; None; Some 2%nat; None]).
  reflexivity.
Defined.

(** X20. The first image that fails decides: when the images of the slots
    before a slot decode and the image of that slot raises [e],
    [process_images] raises [e], whatever the later slots hold. *)
Theorem process_images_first_failure (tensor image : Type)
    (open_comfy_image : tensor -> exn + image)
    (pre post : list (option tensor)) (t : tensor) (e : exn) :
  (forall t', In (Some t') pre -> exists img, open_comfy_image t' = inr img) ->
  open_comfy_image t = inl e ->
  process_images tensor image open_comfy_image (pre ++ Some t :: post) = inl e.
Proof.
  intros Hpre Ht. induction pre as [|[t'|] pre IH]; cbn [app process_images].
  - now rewrite Ht.
  - destruct (Hpre t' (or_introl eq_refl)) as [img ->]. cbn [bind].
    rewrite IH by (intros t'' H; apply Hpre; now right). reflexivity.
  - apply IH. intros t'' H. apply Hpre. now right.
Qed.

Lemma process_images_first_failure_witness :
  process_images nat nat
    (fun t => if Nat.eqb t 0 then inl (OtherException (u "bad tensor"))
              else inr t)
    ([Some 4%nat; None] ++ Some 0%nat :: [Some 0%nat; Some 7%nat])
  = inl (OtherException (u "bad tensor")).
Proof.
  apply (process_images_first_failure nat nat
           (fun t => if Nat.eqb t 0 then inl (OtherException (u "bad tensor"))
                     else inr t)
           [Some 4%nat; None] [Some 0%nat; Some 7%nat] 0%nat
           (OtherException (u "bad tensor"))).
  - intros t' [H | [H | []]]; [|discriminate]. injection H as <-.
    exists 4%nat. reflexivity.
  - reflexivity.
Defined.

(** ** Every value read by [json.loads] has dicts with distinct keys *)

Lemma dict_set_keys (d : list (pystr * value)) (k : pystr) (v : value)
    (x : pystr) :
  In x (List.map fst (dict_set d k v)) -> x = k \/ In x (List.map fst d).
Proof.
  induction d as [|[k' v'] d IH]; cbn [dict_set List.map fst In].
  - intros [<- | []]. now left.
  - destruct (pystr_eqb k' k); cbn [List.map fst In]; [tauto|].
    intros [<- | H]; [tauto|]. destruct (IH H); tauto.
Qed.

Lemma dict_set_distinct (d : list (pystr * value)) (k : pystr) (v : value) :
  NoDup (List.map fst d) -> NoDup (List.map fst (dict_set d k v)).
Proof.
  induction d as [|[k' v'] d IH]; cbn [dict_set List.map fst]; intros H.
  - apply NoDup_singleton.
  - apply NoDup_cons in H as [Hk' Hd]. unfold pystr_eqb.
    destruct (bool_decide (k' = k)) eqn:E; cbn [List.map fst].
    + apply NoDup_cons. split; assumption.
    + apply bool_decide_eq_false_1 in E. apply NoDup_cons. split; [|auto].
      intros Hin%list_elem_of_In. apply dict_set_keys in Hin as [-> | Hin];
        [congruence|]. apply Hk'. now apply list_elem_of_In.
Qed.

Lemma dict_set_values (d : list (pystr * value)) (k : pystr) (v : value) :
  forallb (fun kv => keys_distinct (snd kv)) d = true ->
  keys_distinct v = true ->
  forallb (fun kv => keys_distinct (snd kv)) (dict_set d k v) = true.
Proof.
  intros Hd Hv. induction d as [|[k' v'] d IH];
    cbn [dict_set forallb snd] in *.
  - now rewrite Hv.
  - apply andb_prop in Hd as [Hv' Hd].
    destruct (pystr_eqb k' k); cbn [forallb snd].
    + now rewrite Hv, Hd.
    + now rewrite Hv', (IH Hd).
Qed.

Lemma dict_of_pairs_keys_distinct (pairs : list (pystr * value)) :
  forallb (fun kv => keys_distinct (snd kv)) pairs = true ->
  keys_distinct (VDict (dict_of_pairs pairs)) = true.
Proof.
  unfold dict_of_pairs.
  assert (H : forall acc,
            keys_distinct (VDict acc) = true ->
            forallb (fun kv => keys_distinct (snd kv)) pairs = true ->
            keys_distinct
              (VDict (fold_left (fun d kv => dict_set d (fst kv) (snd kv))
                        pairs acc)) = true).
  { induction pairs as [|[k v] pairs IH]; intros acc Hacc Hp;
      cbn [fold_left forallb fst snd] in *; [exact Hacc|].
    apply andb_prop in Hp as [Hv Hp]. apply IH; [|exact Hp].
    cbn [keys_distinct] in *. apply andb_prop in Hacc as [Hnd Hvals].
    apply bool_decide_eq_true_1 in Hnd. apply andb_true_intro. split.
    - apply bool_decide_eq_true_2. now apply dict_set_distinct.
    - now apply dict_set_values. }
  apply H. reflexivity.
Qed.

Lemma match_number_keys_distinct (s : pystr) (v : value) (rest : pystr) :
  match_number s = Some (v, rest) -> keys_distinct v = true.
Proof.
  unfold match_number. destruct (match_integer s) as [[integer s1]|];
    [|discriminate].
  destruct (match_frac s1) as [frac s2]. destruct (match_exp s2) as [exp s3].
  destruct frac, exp; intros H; injection H as <- _; reflexivity.
Qed.

Lemma array_loop_keys_distinct (sc : pystr -> option (value * pystr)) :
  reads_distinct sc ->
  forall n s vs rest,
    array_loop sc n s = Some (vs, rest) -> forallb keys_distinct vs = true.
Proof.
  intros Hsc. induction n as [|n IH]; intros s vs rest; cbn [array_loop];
    [discriminate|].
  destruct (sc s) as [[v s1]|] eqn:Hv; [|discriminate].
  apply Hsc in Hv. destruct (skip_ws s1) as [|c s2]; [discriminate|].
  destruct (c =? 93).
  - intros H; injection H as <- _. cbn [forallb]. now rewrite Hv.
  - destruct (c =? 44); [|discriminate].
    destruct (array_loop sc n (skip_ws s2)) as [[vs0 r0]|] eqn:Hrec;
      [|discriminate].
    intros H; injection H as <- _. cbn [forallb].
    now rewrite Hv, (IH _ _ _ Hrec).
Qed.

Lemma object_loop_keys_distinct (sc : pystr -> option (value * pystr)) :
  reads_distinct sc ->
  forall n s kvs rest,
    object_loop sc n s = Some (kvs, rest) ->
    forallb (fun kv => keys_distinct (snd kv)) kvs = true.
Proof.
  intros Hsc. induction n as [|n IH]; intros s kvs rest; cbn [object_loop];
    [discriminate|].
  destruct (scanstring s) as [[key s1]|]; [|discriminate].
  destruct (skip_ws s1) as [|c s2]; [discriminate|].
  destruct (c =? 58); [|discriminate].
  destruct (sc (skip_ws s2)) as [[v s3]|] eqn:Hv; [|discriminate].
  apply Hsc in Hv. destruct (skip_ws s3) as [|c' s4]; [discriminate|].
  destruct (c' =? 125).
  - intros H; injection H as <- _. cbn [forallb snd]. now rewrite Hv.
  - destruct (c' =? 44); [|discriminate].
    destruct (skip_ws s4) as [|q s5]; [discriminate|].
    destruct (q =? 34); [|discriminate].
    destruct (object_loop sc n s5) as [[kvs0 r0]|] eqn:Hrec; [|discriminate].
    intros H; injection H as <- _. cbn [forallb snd].
    now rewrite Hv, (IH _ _ _ Hrec).
Qed.

Lemma scan_once_keys_distinct (fuel : nat) : reads_distinct (scan_once fuel).
Proof.
  induction fuel as [|fuel IH]; intros s v rest; cbn [scan_once];
    [discriminate|].
  destruct s as [|c s1]; [discriminate|].
  destruct (c =? 34).
  { destruct (scanstring s1) as [[str r]|]; [|discriminate].
    intros H; injection H as <- _. reflexivity. }
  destruct (c =? 123).
  { unfold JSONObject. destruct (skip_ws s1) as [|c' s2]; [discriminate|].
    destruct (c' =? 125); [intros H; injection H as <- _; reflexivity|].
    destruct (c' =? 34); [|discriminate].
    destruct (object_loop (scan_once fuel) fuel s2) as [[pairs r]|] eqn:Hl;
      [|discriminate].
    intros H; injection H as <- _. apply dict_of_pairs_keys_distinct.
    exact (object_loop_keys_distinct _ IH _ _ _ _ Hl). }
  destruct (c =? 91).
  { unfold JSONArray. destruct (skip_ws s1) as [|c' s2] eqn:Hs;
      [discriminate|].
    destruct (c' =? 93); [intros H; injection H as <- _; reflexivity|].
    destruct (array_loop (scan_once fuel) fuel (c' :: s2)) as [[vs r]|] eqn:Hl;
      [|discriminate].
    intros H; injection H as <- _. cbn [keys_distinct].
    exact (array_loop_keys_distinct _ IH _ _ _ _ Hl). }
  repeat match goal with
         | |- context [strip_prefix ?p ?t] => destruct (strip_prefix p t)
         | |- context [match_number ?t] =>
           let E := fresh "E" in
           destruct (match_number t) as [[? ?]|] eqn:E;
           [apply match_number_keys_distinct in E|]
         end;
    try discriminate; intros H; injection H as <- _;
    first [reflexivity | assumption].
Qed.

Lemma loads_keys_distinct (s : pystr) (v : value) :
  loads s = Some v -> keys_distinct v = true.
Proof.
  unfold loads. destruct (startswith_bom s); [discriminate|].
  destruct (scan_once (S (length s)) (skip_ws s)) as [[obj rest]|] eqn:H;
    [|discriminate].
  apply scan_once_keys_distinct in H.
  destruct (skip_ws rest); [|discriminate]. intros E; injection E as <-.
  exact H.
Qed.

(** ** The history returned by a call is the input of the next one *)

Lemma strip_bracketed (c d : N) (body : pystr) :
  isspace c = false -> isspace d = false ->
  strip (c :: body ++ [d]) = c :: body ++ [d].
Proof.
  intros Hc Hd. unfold strip. cbn [lstrip]. rewrite Hc. unfold rstrip.
  change (c :: body ++ [d]) with ((c :: body) ++ [d]).
  rewrite rev_app_distr. cbn [rev app lstrip]. rewrite Hd.
  change (d :: rev body ++ [c]) with ([d] ++ rev (c :: body)).
  rewrite rev_app_distr, rev_involutive. reflexivity.
Qed.

Lemma strip_dumps_list (rt : runtime) (b : bool) (l : list value) :
  strip (dumps rt b (VList l)) = dumps rt b (VList l).
Proof.
  unfold dumps. destruct l as [|x xs]; [reflexivity|].
  rewrite iterencode_list.
  rewrite (app_assoc (newline_indent 1)), (app_assoc _ (newline_indent 0)).
  now apply strip_bracketed.
Qed.

Lemma parse_success_inv (rt : runtime) (s : pystr) (l : list value) :
  forallb isspace s = false ->
  _parse_chat_history rt s = inr l ->
  loads s = Some (VList l) /\ forallb valid_message l = true.
Proof.
  intros Hs. rewrite (parse_nonblank rt s Hs). unfold parse_body.
  destruct (loads s) as [v|]; [|discriminate].
  destruct v as [| | | | |l'|]; try discriminate.
  destruct (check_messages rt 0 l') as [e|[]] eqn:Hc; cbn [bind].
  - destruct e; discriminate.
  - intros H. injection H as <-.
    split; [reflexivity | exact (check_messages_accepts rt 0 l' Hc)].
Qed.

Lemma parse_history_inv (rt : runtime) (chat_history : option pystr)
    (parsed : list value) :
  parse_history rt chat_history = inr parsed ->
  forallb valid_message parsed = true /\ keys_distinct (VList parsed) = true.
Proof.
  unfold parse_history. destruct (nonblank chat_history) eqn:Hn.
  - destruct chat_history as [s|]; [|discriminate]. cbn [from_option id].
    assert (Hs : forallb isspace (strip s) = false).
    { destruct (forallb isspace (strip s)) eqn:E; [|reflexivity].
      apply strip_nil_iff in E. rewrite strip_idempotent in E.
      unfold nonblank in Hn. rewrite E in Hn. cbn in Hn.
      now rewrite andb_false_r in Hn. }
    intros H. apply (parse_success_inv rt _ _ Hs) in H as [Hl Hv].
    split; [exact Hv | exact (loads_keys_distinct _ _ Hl)].
  - intros H. injection H as <-. split; reflexivity.
Qed.

Lemma parse_history_dumps (rt : runtime) (l : list value) :
  forallb valid_message l = true ->
  no_float (VList l) = true ->
  keys_distinct (VList l) = true ->
  parse_history rt (Some (dumps rt false (VList l))) = inr l.
Proof.
  intros Hv Hnf Hkd. unfold parse_history.
  assert (Hn : nonblank (Some (dumps rt false (VList l))) = true).
  { unfold nonblank. rewrite strip_dumps_list. destruct l; reflexivity. }
  rewrite Hn. cbn [from_option id]. rewrite strip_dumps_list.
  assert (Hs : forallb isspace (dumps rt false (VList l)) = false)
    by (destruct l; reflexivity).
  rewrite (parse_nonblank rt _ Hs).
  rewrite (parse_body_list rt _ l (loads_dumps rt (VList l) Hnf Hkd)).
  now rewrite (check_messages_valid rt 0 l Hv).
Qed.

Section NextCall.
Variables tensor image client : Type.
Variable open_comfy_image : tensor -> exn + image.
Variable LlamaLiteClient : pystr -> exn + client.
Variable chat : client -> chat_params image -> exn + Response.
Variable rt : runtime.
Variable clients : gmap (list N) client.
Variables server_url prompt : pystr.
Variables system_prompt chat_history : option pystr.
Variables image1 image2 image3 image4 image5 : option tensor.

(** X21. The conversation continues: after a successful exchange in which
    no float occurs in the history or in the content, the history returned
    is accepted as the [chat_history] of the next call, where it parses to
    the history that was sent followed by the assistant message. *)
Theorem returned_history_feeds_next_call (images : list image) (llm : client)
    (parsed : list value) (response : Response) (choice : Choice)
    (others : list Choice) (m : Message) (c : value) (n : nat) :
  accepted tensor image client open_comfy_image LlamaLiteClient rt clients
    server_url prompt chat_history [image1; image2; image3; image4; image5]
    images llm parsed ->
  chat llm (request image prompt system_prompt images parsed) = inr response ->
  choices response = Some (choice :: others) ->
  message choice = Some m ->
  content m = Some c ->
  len c = inr n ->
  no_float (VList parsed) = true ->
  no_float c = true ->
  keys_distinct c = true ->
  parse_history rt
    (Some (snd (fst (execute_llama_chat tensor image client open_comfy_image
                       LlamaLiteClient chat rt clients server_url prompt
                       system_prompt chat_history
                       image1 image2 image3 image4 image5))))
  = inr (parsed ++ [VDict [(u "role", VStr (u "assistant"));
                           (u "content", c)]]).
Proof.
  intros Ha Hc Hch Hm Hcontent Hlen Hnf Hnfc Hkdc.
  destruct Ha as (Hi & Hu & Hp & Hg & Hh).
  destruct (parse_history_inv rt chat_history parsed Hh) as [Hv Hkd].
  rewrite (run_of_try_block tensor image client open_comfy_image
             LlamaLiteClient chat rt clients image1 image2 image3 image4
             image5 server_url prompt system_prompt chat_history).
  cbn [fst].
  rewrite (try_block_accepted tensor image client open_comfy_image
             LlamaLiteClient chat rt clients image1 image2 image3 image4
             image5 server_url prompt system_prompt chat_history
             images llm parsed)
    by (repeat split; assumption).
  unfold call_and_merge. rewrite Hc. cbn [bind]. rewrite Hch, Hm.
  destruct m as [mc]. cbn [content] in Hcontent. subst mc.
  rewrite Hlen. cbn [bind cp_chat_history request snd].
  rewrite (format_with_content rt response choice others
             {| content := Some c |} c _ 0%nat parsed
             (lookup_singleton_eq _ _) Hch Hm eq_refl).
  cbn [fst]. apply parse_history_dumps.
  - rewrite forallb_app, Hv. reflexivity.
  - cbn [no_float] in *. rewrite forallb_app, Hnf.
    cbn [forallb assistant_message no_float snd]. now rewrite Hnfc.
  - cbn [keys_distinct] in *. rewrite forallb_app, Hkd.
    cbn [forallb assistant_message keys_distinct snd andb]. now rewrite Hkdc.
Qed.
End NextCall.

Lemma returned_history_feeds_next_call_witness :
  parse_history plain_runtime
    (Some (snd (node (inr (reply (VStr (u "Hi there!")))) plain_runtime
                  localhost (u "Hello") None (Some history_text))))
  = inr ([user_hi] ++ [VDict [(u "role", VStr (u "assistant"));
                              (u "content", VStr (u "Hi there!"))]]).
Proof.
  apply (returned_history_feeds_next_call unit unit unit (fun _ => inr tt)
           (fun _ => inr tt) (fun _ _ => inr (reply (VStr (u "Hi there!"))))
           plain_runtime ∅ localhost (u "Hello") None (Some history_text)
           None None None None None [] tt [user_hi]
           (reply (VStr (u "Hi there!")))
           {| message := Some {| content := Some (VStr (u "Hi there!")) |} |}
           [] {| content := Some (VStr (u "Hi there!")) |}
           (VStr (u "Hi there!")) 9%nat);
    [repeat split; reflexivity | reflexivity | reflexivity | reflexivity
    | reflexivity | reflexivity | reflexivity | reflexivity | reflexivity].
Defined.
